(** * Field reconciliation engine: [compare_utils.py]

    A shallow embedding of the invoice / purchase-order comparator and of the
    record normaliser it relies on, followed by the properties of the
    natural-language specification that were checked against it.

    Conventions of the embedding.
    - A Python [str] is a [string]; a character is a code point below 256
      (Latin-1), and the character classes below are Python's, restricted to
      that range.
    - A [dict] is an association list in insertion order with distinct keys;
      [None] values are [option]s.
    - An exception is a value of [res]; a [try]/[except] is a [match] on it.
    - A compiled pattern is a value of [regex], run by a backtracking matcher
      with the priorities of Python's [re] (greedy repetition, ordered
      alternation, leftmost match). *)

From Stdlib Require Import Bool Arith PeanoNat NArith ZArith Lia List.
From Stdlib Require Import Ascii String DecimalString SpecFloat.
From Stdlib Require QArith Qabs.
Import ListNotations.

Local Open Scope string_scope.
Local Open Scope list_scope.

(* ================================================================== *)
(** ** Characters *)

Module Char.

Definition code (a : ascii) : N := N_of_ascii a.

Definition in_range (lo hi : N) (a : ascii) : bool :=
  (N.leb lo (code a) && N.leb (code a) hi)%bool.

Definition is_digit (a : ascii) : bool := in_range 48 57 a.
Definition is_upper (a : ascii) : bool := in_range 65 90 a.
Definition is_lower (a : ascii) : bool := in_range 97 122 a.

(** [str.isspace] on one character, which is also the class [\s] of a [str]
    pattern: TAB..CR, FS..US, SPACE, NEL and NBSP. *)
Definition is_space (a : ascii) : bool :=
  (in_range 9 13 a || in_range 28 32 a
   || N.eqb (code a) 133 || N.eqb (code a) 160)%bool.

(** The class [\w] of a [str] pattern: alphanumeric characters and [_]. *)
Definition is_word (a : ascii) : bool :=
  (is_digit a || is_upper a || is_lower a || N.eqb (code a) 95
   || N.eqb (code a) 170 || in_range 178 179 a || N.eqb (code a) 181
   || in_range 185 186 a || in_range 188 190 a
   || in_range 192 214 a || in_range 216 246 a || in_range 248 255 a)%bool.

(** [str.lower] on one character. *)
Definition lower (a : ascii) : ascii :=
  if (is_upper a || (in_range 192 222 a && negb (N.eqb (code a) 215)))%bool
  then ascii_of_N (code a + 32) else a.

(** The line boundaries of [str.splitlines] (CR LF is handled there). *)
Definition is_linebreak (a : ascii) : bool :=
  (in_range 10 13 a || in_range 28 30 a || N.eqb (code a) 133)%bool.

Definition newline : ascii := ascii_of_N 10.

End Char.

(* ================================================================== *)
(** ** String methods *)

Module Str.

Definition nonempty (s : string) : bool :=
  match s with EmptyString => false | String _ _ => true end.

Fixpoint lower (s : string) : string :=
  match s with
  | EmptyString => EmptyString
  | String a s' => String (Char.lower a) (lower s')
  end.

Fixpoint lstrip (s : string) : string :=
  match s with
  | EmptyString => EmptyString
  | String a s' => if Char.is_space a then lstrip s' else s
  end.

Fixpoint rstrip (s : string) : string :=
  match s with
  | EmptyString => EmptyString
  | String a s' =>
      let t := rstrip s' in
      if (Char.is_space a && negb (nonempty t))%bool then EmptyString
      else String a t
  end.

Definition strip (s : string) : string := lstrip (rstrip s).

(** [s[:n]] *)
Fixpoint take (n : nat) (s : string) : string :=
  match n, s with
  | S n', String a s' => String a (take n' s')
  | _, _ => EmptyString
  end.

(** [s[n:]] *)
Fixpoint drop (n : nat) (s : string) : string :=
  match n, s with
  | S n', String _ s' => drop n' s'
  | _, _ => s
  end.

Definition startswith (s p : string) : bool := String.prefix p s.

(** [s.replace(old, new)] for a non-empty [old]: the occurrences are taken
    from left to right and do not overlap.  [skip] counts the characters of
    the occurrence being replaced that are still to be passed over. *)
Fixpoint replace_from (old new : string) (skip : nat) (s : string) : string :=
  match s with
  | EmptyString => EmptyString
  | String a s' =>
      match skip with
      | S n => replace_from old new n s'
      | O =>
          if String.prefix old s
          then new ++ replace_from old new (String.length old - 1) s'
          else String a (replace_from old new 0 s')
      end
  end.

Definition replace (s old new : string) : string := replace_from old new 0 s.

(** [s.splitlines()]: [cur] is the line being read, in reverse; [after_cr]
    tells that the previous character was a CR, so that a LF that follows
    closes no second line. *)
Fixpoint rev_string (acc s : string) : string :=
  match s with
  | EmptyString => acc
  | String a s' => rev_string (String a acc) s'
  end.

Fixpoint splitlines_from (cur : string) (after_cr : bool) (s : string)
  : list string :=
  match s with
  | EmptyString =>
      match cur with
      | EmptyString => []
      | _ => [rev_string EmptyString cur]
      end
  | String a s' =>
      if (after_cr && Ascii.eqb a Char.newline)%bool
      then splitlines_from cur false s'
      else if Char.is_linebreak a
      then rev_string EmptyString cur
           :: splitlines_from EmptyString (N.eqb (Char.code a) 13) s'
      else splitlines_from (String a cur) false s'
  end.

Definition splitlines (s : string) : list string :=
  splitlines_from EmptyString false s.

End Str.

(* ================================================================== *)
(** ** Patterns and the backtracking matcher *)

Module Re.

(** The fragment of Python's pattern syntax that [compare_utils.py] uses. *)
Inductive regex : Type :=
| Chr (p : ascii -> bool)                    (* one character of a class *)
| Seq (r1 r2 : regex)                        (* r1 r2 *)
| Alt (r1 r2 : regex)                        (* r1|r2, r1 tried first *)
| Rep (r : regex) (lo : nat) (hi : option nat)  (* greedy r{lo,hi} *)
| Grp (n : nat) (r : regex)                  (* capturing group number n *)
| Bnd                                        (* \b *)
| Bol                                        (* ^ under re.M *)
| Eol.                                       (* $ under re.M *)

Definition caps : Type := list (nat * string).

(** What is left to match: the character before the position ([None] at the
    start of the subject), the rest of the subject, the groups so far. *)
Definition cont : Type := option ascii -> string -> caps -> option (string * caps).
Definition matcher : Type := option ascii -> string -> caps -> cont -> option (string * caps).

Definition word_before (prev : option ascii) : bool :=
  match prev with Some a => Char.is_word a | None => false end.

Definition word_after (s : string) : bool :=
  match s with String a _ => Char.is_word a | EmptyString => false end.

Definition below (i : nat) (hi : option nat) : bool :=
  match hi with Some h => Nat.ltb i h | None => true end.

(** Greedy repetition: one more round of [body] is tried before leaving the
    loop.  Every repeated body of this program consumes a character, so
    [fuel], the length of the subject left when the loop is entered, bounds
    the number of rounds. *)
Fixpoint rep (body : matcher) (lo : nat) (hi : option nat) (fuel i : nat)
  (prev : option ascii) (s : string) (c : caps) (k : cont)
  : option (string * caps) :=
  let leave := if Nat.leb lo i then k prev s c else None in
  match fuel with
  | O => leave
  | S fuel' =>
      if below i hi then
        match body prev s c
                (fun p' s' c' => rep body lo hi fuel' (S i) p' s' c' k) with
        | Some x => Some x
        | None => leave
        end
      else leave
  end.

Fixpoint rmatch (r : regex) (prev : option ascii) (s : string) (c : caps)
  (k : cont) {struct r} : option (string * caps) :=
  match r with
  | Chr p =>
      match s with
      | String a s' => if p a then k (Some a) s' c else None
      | EmptyString => None
      end
  | Seq r1 r2 =>
      rmatch r1 prev s c (fun p' s' c' => rmatch r2 p' s' c' k)
  | Alt r1 r2 =>
      match rmatch r1 prev s c k with
      | Some x => Some x
      | None => rmatch r2 prev s c k
      end
  | Rep r' lo hi => rep (rmatch r') lo hi (String.length s) 0 prev s c k
  | Grp n r' =>
      rmatch r' prev s c
        (fun p' s' c' =>
           k p' s' ((n, Str.take (String.length s - String.length s') s) :: c'))
  | Bnd => if xorb (word_before prev) (word_after s) then k prev s c else None
  | Bol =>
      match prev with
      | None => k prev s c
      | Some a => if Ascii.eqb a Char.newline then k prev s c else None
      end
  | Eol =>
      match s with
      | EmptyString => k prev s c
      | String a _ => if Ascii.eqb a Char.newline then k prev s c else None
      end
  end.

(** A match object: where it starts, [group(0)], and the numbered groups. *)
Record mtch : Type := Mtch { start : nat; whole : string; groups : caps }.

Fixpoint lookup (n : nat) (c : caps) : option string :=
  match c with
  | [] => None
  | (i, v) :: c' => if Nat.eqb i n then Some v else lookup n c'
  end.

(** [m.group(n)] for a group that took part in the match; a group that did
    not reads as the empty string, which is what [findall] reports for it. *)
Definition group (n : nat) (m : mtch) : string :=
  match lookup n (groups m) with Some v => v | None => EmptyString end.

Definition accept : cont := fun _ s c => Some (s, c).
Definition accept_end : cont :=
  fun _ s c => match s with EmptyString => Some (s, c) | _ => None end.

(** A match that begins exactly at the current position. *)
Definition match_here (r : regex) (pos : nat) (prev : option ascii) (s : string)
  : option mtch :=
  match rmatch r prev s [] accept with
  | Some (rest, c) =>
      Some (Mtch pos (Str.take (String.length s - String.length rest) s) c)
  | None => None
  end.

(** [pattern.search(s)]: the match at the leftmost position that has one. *)
Fixpoint search_from (r : regex) (pos : nat) (prev : option ascii) (s : string)
  : option mtch :=
  match match_here r pos prev s with
  | Some m => Some m
  | None =>
      match s with
      | EmptyString => None
      | String a s' => search_from r (S pos) (Some a) s'
      end
  end.

Definition search (r : regex) (s : string) : option mtch := search_from r 0 None s.

(** [re.fullmatch(pattern, s)] *)
Definition fullmatch (r : regex) (s : string) : option mtch :=
  match rmatch r None s [] accept_end with
  | Some (_, c) => Some (Mtch 0 s c)
  | None => None
  end.

(** The successive non-overlapping matches, from left to right.  The
    patterns given to [findall] and [sub] in this program match no empty
    string; [skip] counts the characters of the last match still to pass. *)
Fixpoint finditer_from (r : regex) (pos : nat) (prev : option ascii)
  (skip : nat) (s : string) : list mtch :=
  match s with
  | EmptyString => []
  | String a s' =>
      match skip with
      | S n => finditer_from r (S pos) (Some a) n s'
      | O =>
          match match_here r pos prev s with
          | Some m =>
              match String.length (whole m) with
              | S n => m :: finditer_from r (S pos) (Some a) n s'
              | O => finditer_from r (S pos) (Some a) 0 s'
              end
          | None => finditer_from r (S pos) (Some a) 0 s'
          end
      end
  end.

Definition finditer (r : regex) (s : string) : list mtch :=
  finditer_from r 0 None 0 s.

(** [re.sub(pattern, repl, s)] for a literal replacement. *)
Fixpoint sub_from (r : regex) (repl : string) (prev : option ascii)
  (skip : nat) (s : string) : string :=
  match s with
  | EmptyString => EmptyString
  | String a s' =>
      match skip with
      | S n => sub_from r repl (Some a) n s'
      | O =>
          match match_here r 0 prev s with
          | Some m =>
              match String.length (whole m) with
              | S n => repl ++ sub_from r repl (Some a) n s'
              | O => String a (sub_from r repl (Some a) 0 s')
              end
          | None => String a (sub_from r repl (Some a) 0 s')
          end
      end
  end.

Definition sub (r : regex) (repl s : string) : string := sub_from r repl None 0 s.

(** *** Pattern syntax *)

Definition chr (a : ascii) : regex := Chr (Ascii.eqb a).
(** A letter under [re.I]. *)
Definition ichr (a : ascii) : regex :=
  Chr (fun b => Ascii.eqb (Char.lower b) (Char.lower a)).

Fixpoint lit (s : string) : regex :=
  match s with
  | EmptyString => Rep (Chr (fun _ => false)) 0 (Some 0)
  | String a EmptyString => chr a
  | String a s' => Seq (chr a) (lit s')
  end.

Fixpoint ilit (s : string) : regex :=
  match s with
  | EmptyString => Rep (Chr (fun _ => false)) 0 (Some 0)
  | String a EmptyString => ichr a
  | String a s' => Seq (ichr a) (ilit s')
  end.

Fixpoint seq (rs : list regex) : regex :=
  match rs with
  | [] => Rep (Chr (fun _ => false)) 0 (Some 0)
  | [r] => r
  | r :: rs' => Seq r (seq rs')
  end.

Fixpoint alt (rs : list regex) : regex :=
  match rs with
  | [] => Chr (fun _ => false)
  | [r] => r
  | r :: rs' => Alt r (alt rs')
  end.

Definition star (r : regex) : regex := Rep r 0 None.
Definition plus (r : regex) : regex := Rep r 1 None.
Definition opt (r : regex) : regex := Rep r 0 (Some 1).
Definition times (r : regex) (lo hi : nat) : regex := Rep r lo (Some hi).
Definition at_least (r : regex) (lo : nat) : regex := Rep r lo None.

Definition digit : regex := Chr Char.is_digit.           (* \d and [0-9] *)
Definition space : regex := Chr Char.is_space.           (* \s *)
Definition upper : regex := Chr Char.is_upper.           (* [A-Z] *)
Definition letter : regex :=                             (* [A-Z], [a-z] under re.I *)
  Chr (fun a => (Char.is_upper a || Char.is_lower a)%bool).
Definition dot : regex :=                                (* . *)
  Chr (fun a => negb (Ascii.eqb a Char.newline)).
Definition one_of (s : string) : regex :=                (* [...] *)
  Chr (fun a => existsb (Ascii.eqb a) (list_ascii_of_string s)).
Definition none_of (p : ascii -> bool) : regex :=        (* [^...] *)
  Chr (fun a => negb (p a)).

End Re.

(* ================================================================== *)
(** ** Floating-point numbers *)

(** A Python [float] is an IEEE 754 binary64 number: [spec_float] with a
    precision of 53 bits, and the operations of [SpecFloat]. *)
Module Float.

Definition prec : Z := 53.
Definition emax : Z := 1024.

Definition float : Type := spec_float.

(** The binary64 number nearest to [m / d] (ties to even), [0 <= m], [0 < d]. *)
Definition of_ratio (m d : Z) : float :=
  match m with
  | Z0 => S754_zero false
  | _ =>
      let '(q, e, l) := SFdiv_core_binary prec emax m 0 d 0 in
      binary_round_aux prec emax false q e l
  end.

Definition digit_value (a : ascii) : Z := Z.of_N (Char.code a) - 48.

(** The digits of a decimal literal: the value read so far, and the number
    of digits after the point once the point has been seen. *)
Fixpoint read_digits (s : string) (acc : Z) (frac : option nat) (seen : bool)
  : option (Z * nat) :=
  match s with
  | EmptyString =>
      if seen then Some (acc, match frac with Some k => k | None => O end)
      else None
  | String a s' =>
      if Char.is_digit a then
        read_digits s' (10 * acc + digit_value a)
          (option_map S frac) true
      else if Ascii.eqb a "."%char then
        match frac with
        | None => read_digits s' acc (Some O) seen
        | Some _ => None
        end
      else None
  end.

(** [float(s)], with [None] for [ValueError].  The strings that reach
    [float] in this program are made of digits and points, or are the
    rendering of an infinity; signs, exponents and blanks do not occur. *)
Definition of_string (s : string) : option float :=
  if String.eqb s "inf" then Some (S754_infinity false)
  else if String.eqb s "nan" then Some S754_nan
  else
    match read_digits s 0 None false with
    | Some (m, k) => Some (of_ratio m (10 ^ Z.of_nat k))
    | None => None
    end.

(** The integer nearest to [n / d], ties to even. *)
Definition round_half_even (n d : Z) : Z :=
  let q := Z.div n d in
  let r := Z.modulo n d in
  match Z.compare (2 * r) d with
  | Lt => q
  | Gt => q + 1
  | Eq => if Z.even q then q else q + 1
  end.

Definition decimal (n : Z) : string := NilZero.string_of_uint (N.to_uint (Z.to_N n)).

(** The hundredths [n] as a number with two decimals. *)
Definition render_hundredths (n : Z) : string :=
  decimal (Z.div n 100) ++ "."
  ++ decimal (Z.div (Z.modulo n 100) 10) ++ decimal (Z.modulo n 10).

(** [f"{x:.2f}"]: the exact value of [x], rounded to two decimals. *)
Definition format2 (x : float) : string :=
  match x with
  | S754_zero s => (if s then "-" else "") ++ "0.00"
  | S754_infinity s => (if s then "-" else "") ++ "inf"
  | S754_nan => "nan"
  | S754_finite s m e =>
      (if s then "-" else "") ++
      render_hundredths
        (match e with
         | Zneg p => round_half_even (100 * Zpos m) (2 ^ Zpos p)
         | _ => 100 * Zpos m * 2 ^ e
         end)
  end.

Definition sub (x y : float) : float := SFsub prec emax x y.
Definition abs (x : float) : float := SFabs x.
Definition ltb (x y : float) : bool := SFltb x y.

(** The literal [0.01]. *)
Definition cent : float := of_ratio 1 100.

End Float.

(* ================================================================== *)
(** ** Exceptions and dictionaries *)

Inductive exn : Type := KeyError | IndexError.

Inductive res (A : Type) : Type :=
| Ok (a : A)
| Raise (e : exn).
Arguments Ok {A} a.
Arguments Raise {A} e.

Definition bind {A B : Type} (x : res A) (f : A -> res B) : res B :=
  match x with
  | Ok a => f a
  | Raise e => Raise e
  end.

Notation "x <- e1 ;; e2" := (bind e1 (fun x => e2))
  (at level 61, e1 at next level, right associativity).

Module Dict.

Section Assoc.
Context {V : Type}.

Definition t : Type := list (string * V).

(** [d.get(k)] *)
Fixpoint get (k : string) (d : t) : option V :=
  match d with
  | [] => None
  | (k', v) :: d' => if String.eqb k' k then Some v else get k d'
  end.

(** [k in d] *)
Definition mem (k : string) (d : t) : bool :=
  match get k d with Some _ => true | None => false end.

(** [d[k] = v]: the value of a key that is there is replaced in place, a new
    key goes to the end. *)
Fixpoint set (k : string) (v : V) (d : t) : t :=
  match d with
  | [] => [(k, v)]
  | (k', v') :: d' =>
      if String.eqb k' k then (k', v) :: d' else (k', v') :: set k v d'
  end.

Definition keys (d : t) : list string := map fst d.

End Assoc.
Arguments t : clear implicits.

(** [d[k]] *)
Definition item (k : string) (d : t string) : res string :=
  match get k d with
  | Some v => Ok v
  | None => Raise KeyError
  end.

End Dict.

(** [l[i]] for [0 <= i] *)
Definition list_item {A : Type} (l : list A) (i : nat) : res A :=
  match nth_error l i with
  | Some x => Ok x
  | None => Raise IndexError
  end.

(** [l[-1]] *)
Definition list_last {A : Type} (l : list A) : res A :=
  match rev l with
  | x :: _ => Ok x
  | [] => Raise IndexError
  end.

(* ================================================================== *)
(** ** The module [compare_utils] *)

Import Re.

(** A raw record: [None] is an absent record, a [None] value is Python's
    [None]. *)
Definition raw_record : Type := option (Dict.t (option string)).
(** A canonical record. *)
Definition canon_record : Type := Dict.t string.

Definition FIELDS : list string :=
  ["vendor"; "date"; "currency"; "total"; "po_number"].

Definition SYNONYMS : list (string * list string) :=
  [ ("vendor", ["vendor"; "seller"; "supplier"; "from"]);
    ("date", ["date"; "date of issue"; "invoice date"; "date issued"]);
    ("currency", ["currency"]);
    ("total", ["total"; "amount due"; "amount"; "grand total"]);
    ("po_number", ["po"; "po number"; "purchase order number";
                   "purchase order"; "invoice number"; "order number"]) ].

(** [(\b\d{1,2}[\-/]\d{1,2}[\-/]\d{2,4}\b|\b\d{4}[\-/]\d{1,2}[\-/]\d{1,2}\b)] *)
Definition _date_re : regex :=
  Grp 1 (Alt
    (seq [Bnd; times digit 1 2; one_of "-/"; times digit 1 2; one_of "-/";
          times digit 2 4; Bnd])
    (seq [Bnd; times digit 4 4; one_of "-/"; times digit 1 2; one_of "-/";
          times digit 1 2; Bnd])).

(** [([A-Z]{3})?\s?\$?\s?([0-9]{1,3}(?:,[0-9]{3})*(?:\.[0-9]{2})|[0-9]+\.[0-9]{2})] *)
Definition _money_re : regex :=
  seq [opt (Grp 1 (times upper 3 3)); opt space; opt (chr "$"); opt space;
       Grp 2 (Alt
         (seq [times digit 1 3; star (Seq (chr ",") (times digit 3 3));
               Seq (chr ".") (times digit 2 2)])
         (seq [plus digit; chr "."; times digit 2 2]))].

(** [[A-Z0-9\-]] under [re.I] *)
Definition id_char : regex :=
  Chr (fun a => (Char.is_upper a || Char.is_lower a || Char.is_digit a
                 || Ascii.eqb a "-")%bool).

(** [[:\s]] *)
Definition colon_or_space : regex :=
  Chr (fun a => (Ascii.eqb a ":" || Char.is_space a)%bool).

(** [PO\s*#?\s*([A-Z0-9\-]+)], [re.I] *)
Definition _po_re : regex :=
  seq [ilit "po"; star space; opt (chr "#"); star space; Grp 1 (plus id_char)].

(** [Invoice\s*Number[:\s]+([A-Z0-9\-]+)], [re.I] *)
Definition _inv_re : regex :=
  seq [ilit "invoice"; star space; ilit "number"; plus colon_or_space;
       Grp 1 (plus id_char)].

(** [(?:[A-Z]{2,}-)?(\d{6,})] *)
Definition _id_core_re : regex :=
  seq [opt (Seq (at_least upper 2) (chr "-")); Grp 1 (at_least digit 6)].

(** [Vendor[:\s]+(.+)], [re.I] *)
Definition _vendor_re : regex :=
  seq [ilit "vendor"; plus colon_or_space; Grp 1 (plus dot)].

(** [^(seller|vendor)\s*:\s*(.+)$], [re.I | re.M] *)
Definition _seller_inline_re : regex :=
  seq [Bol; Grp 1 (Alt (ilit "seller") (ilit "vendor")); star space; chr ":";
       star space; Grp 2 (plus dot); Eol].

(** [(jan|feb|mar|apr|may|jun|jul|aug|sep|sept|oct|nov|dec)[a-z]*\s+\d{1,2},\s+\d{4}],
    [re.I] *)
Definition _month_re : regex :=
  seq [Grp 1 (alt (map ilit ["jan"; "feb"; "mar"; "apr"; "may"; "jun"; "jul";
                             "aug"; "sep"; "sept"; "oct"; "nov"; "dec"]));
       star letter; plus space; times digit 1 2; chr ","; plus space;
       times digit 4 4].

(** The patterns that are written where they are used. *)

(** [\s+] *)
Definition spaces_re : regex := plus space.
(** [[^0-9\.]+] *)
Definition not_amount_re : regex :=
  plus (none_of (fun a => (Char.is_digit a || Ascii.eqb a ".")%bool)).
(** [[\.,]] *)
Definition punct_re : regex := one_of ".,".
(** [\b(pvt|private)\b\s*\b(ltd|limited)\b] *)
Definition private_limited_re : regex :=
  seq [Bnd; Grp 1 (Alt (lit "pvt") (lit "private")); Bnd; star space; Bnd;
       Grp 2 (Alt (lit "ltd") (lit "limited")); Bnd].
(** [\b(incorporated|inc|llc|ltd)\b] *)
Definition suffix_re : regex :=
  seq [Bnd; Grp 1 (alt (map lit ["incorporated"; "inc"; "llc"; "ltd"])); Bnd].
(** [\s*(vendor|seller)\s*:?\s*], [re.I] *)
Definition label_re : regex :=
  seq [star space; Grp 1 (Alt (ilit "vendor") (ilit "seller")); star space;
       opt (chr ":"); star space].
(** [[A-Z]{2,}-\d{6,}], [re.I] *)
Definition prefixed_id_re : regex :=
  seq [at_least letter 2; chr "-"; at_least digit 6].
(** [\d{8,}] *)
Definition long_digits_re : regex := at_least digit 8.

Definition is_some {A : Type} (o : option A) : bool :=
  match o with Some _ => true | None => false end.

Definition _clean (s : string) : string :=
  Str.strip (sub spaces_re " " s).

Definition _normalize_amount (text : string) : string :=
  if negb (Str.nonempty text) then ""
  else
    let s := Str.replace (Str.replace (Str.replace text "," "") "USD" "") "usd" "" in
    let s := sub not_amount_re "" s in
    match Float.of_string s with
    | Some val => Float.format2 val
    | None => ""
    end.

Definition _normalize_company (name : string) : string :=
  let s := Str.lower (_clean name) in
  let s := sub punct_re "" s in
  let s := sub private_limited_re "" s in
  let s := sub suffix_re "" s in
  let s := Str.strip (sub spaces_re " " s) in
  s.

(** *** [_normalize_record] *)

(** [not rec] *)
Definition record_is_empty (rec : raw_record) : bool :=
  match rec with
  | None | Some [] => true
  | Some (_ :: _) => false
  end.

Definition items (rec : raw_record) : Dict.t (option string) :=
  match rec with Some d => d | None => [] end.

(** [{str(k).strip().lower(): str(v) for k, v in rec.items() if v is not None}] *)
Definition lower_map (rec : raw_record) : Dict.t string :=
  fold_left
    (fun d kv =>
       match snd kv with
       | Some v => Dict.set (Str.lower (Str.strip (fst kv))) v d
       | None => d
       end)
    (items rec) [].

(** [{k: "" for k in FIELDS}] *)
Definition empty_result : canon_record := map (fun k => (k, "")) FIELDS.

(** The inner loop over the synonyms of one field: the value under the first
    synonym that is a key of [lm]. *)
Fixpoint first_present (keys : list string) (lm : Dict.t string) : option string :=
  match keys with
  | [] => None
  | k :: keys' =>
      match Dict.get k lm with
      | Some v => Some v
      | None => first_present keys' lm
      end
  end.

(** The loop over [SYNONYMS.items()]. *)
Definition apply_synonyms (lm : Dict.t string) (result : canon_record)
  : canon_record :=
  fold_left
    (fun r sk =>
       match first_present (snd sk) lm with
       | Some v => Dict.set (fst sk) v r
       | None => r
       end)
    SYNONYMS result.

(** Sanity cleanup for vendor label-only values. *)
Definition sanitize_vendor (result : canon_record) : res canon_record :=
  v <- Dict.item "vendor" result ;;
  if Str.nonempty v then
    v' <- Dict.item "vendor" result ;;
    if is_some (fullmatch label_re v') then Ok (Dict.set "vendor" "" result)
    else Ok result
  else Ok result.

(** Validate PO/Invoice id shape. *)
Definition sanitize_po (result : canon_record) : res canon_record :=
  p <- Dict.item "po_number" result ;;
  if Str.nonempty p then
    p' <- Dict.item "po_number" result ;;
    let id_val := Str.strip p' in
    if negb (is_some (search _id_core_re id_val)
             || is_some (search prefixed_id_re id_val)
             || is_some (search long_digits_re id_val))%bool
    then Ok (Dict.set "po_number" "" result)
    else Ok result
  else Ok result.

(** [rec.get("_raw", "")]; a [None] stored under the key is as false as the
    empty string. *)
Definition raw_text (rec : raw_record) : string :=
  match Dict.get "_raw" (items rec) with
  | Some (Some s) => s
  | _ => ""
  end.

Definition first_some {A : Type} (a b : option A) : option A :=
  match a with Some _ => a | None => b end.

Definition fallback_date (raw : string) (result : canon_record) : res canon_record :=
  d <- Dict.item "date" result ;;
  if negb (Str.nonempty d) then
    match first_some (search _date_re raw) (search _month_re raw) with
    | Some m => Ok (Dict.set "date" (whole m) result)
    | None => Ok result
    end
  else Ok result.

Definition fallback_po (raw : string) (result : canon_record) : res canon_record :=
  p <- Dict.item "po_number" result ;;
  if negb (Str.nonempty p) then
    (* Try Invoice Number first, then PO *)
    let m := search _inv_re raw in
    let m := match m with Some _ => m | None => search _po_re raw end in
    match m with
    | Some m =>
        let id_val := Str.strip (group 1 m) in
        (* Extract numeric core for comparison *)
        let core := search _id_core_re id_val in
        Ok (Dict.set "po_number"
              (match core with Some c => group 1 c | None => id_val end) result)
    | None => Ok result
    end
  else Ok result.

(** [_money_re.findall(raw)]: one pair of groups per match. *)
Definition money_findall (raw : string) : list (string * string) :=
  map (fun m => (group 1 m, group 2 m)) (finditer _money_re raw).

Definition fallback_total (raw : string) (result : canon_record) : res canon_record :=
  t <- Dict.item "total" result ;;
  if negb (Str.nonempty t) then
    let m := money_findall raw in
    match m with
    | [] => Ok result
    | _ :: _ =>
        last <- list_last m ;;
        Ok (Dict.set "total" (_normalize_amount (snd last)) result)
    end
  else Ok result.

(** [next((c for c, _ in m if c), "")] *)
Fixpoint first_code (m : list (string * string)) : string :=
  match m with
  | [] => ""
  | (c, _) :: m' => if Str.nonempty c then c else first_code m'
  end.

Definition fallback_currency (raw : string) (result : canon_record) : res canon_record :=
  c <- Dict.item "currency" result ;;
  if negb (Str.nonempty c) then
    let m := money_findall raw in
    match m with
    | [] => Ok result
    | _ :: _ => Ok (Dict.set "currency" (first_code m) result)
    end
  else Ok result.

Definition is_label_line (line : string) : bool :=
  (Str.startswith (Str.lower line) "seller:"
   || Str.startswith (Str.lower line) "vendor:")%bool.

(** The loop [for idx, line in enumerate(lines)]: [todo] is what is left of
    [lines] from [idx] on.  [Some name] is the value the loop assigns before
    its [break]. *)
Fixpoint next_line_loop (lines : list string) (idx : nat) (todo : list string)
  : res (option string) :=
  match todo with
  | [] => Ok None
  | line :: todo' =>
      if is_label_line line then
        name <- (if Nat.ltb (idx + 1) (List.length lines)
                 then l <- list_item lines (idx + 1) ;; Ok (Str.strip l)
                 else Ok "") ;;
        if Str.nonempty name then Ok (Some (Str.take 64 (_clean name)))
        else next_line_loop lines (S idx) todo'
      else next_line_loop lines (S idx) todo'
  end.

Definition fallback_vendor (raw : string) (result : canon_record) : res canon_record :=
  v <- Dict.item "vendor" result ;;
  if negb (Str.nonempty v) then
    (* same-line pattern first *)
    let m_inline := search _seller_inline_re raw in
    let result :=
      match m_inline with
      | Some m => Dict.set "vendor" (Str.take 64 (_clean (group 2 m))) result
      | None => result
      end in
    v1 <- Dict.item "vendor" result ;;
    result <-
      (if negb (Str.nonempty v1) then
         (* then next-line pattern *)
         let lines := map Str.rstrip (Str.splitlines raw) in
         found <- next_line_loop lines 0 lines ;;
         match found with
         | Some name => Ok (Dict.set "vendor" name result)
         | None => Ok result
         end
       else Ok result) ;;
    v2 <- Dict.item "vendor" result ;;
    if negb (Str.nonempty v2) then
      match search _vendor_re raw with
      | Some m => Ok (Dict.set "vendor" (Str.take 64 (_clean (group 1 m))) result)
      | None => Ok result
      end
    else Ok result
  else Ok result.

(** Regex fallbacks using raw text. *)
Definition fallbacks (raw : string) (result : canon_record) : res canon_record :=
  if Str.nonempty raw then
    result <- fallback_date raw result ;;
    result <- fallback_po raw result ;;
    result <- fallback_total raw result ;;
    result <- fallback_currency raw result ;;
    fallback_vendor raw result
  else Ok result.

Definition _normalize_record (rec : raw_record) : res canon_record :=
  if record_is_empty rec then Ok empty_result
  else
    let result := apply_synonyms (lower_map rec) empty_result in
    result <- sanitize_vendor result ;;
    result <- sanitize_po result ;;
    fallbacks (raw_text rec) result.

(** *** [_candidate_fields] *)

(** A [set] of strings is a list without repetition; [keys.add(k)]: *)
Definition set_add (k : string) (keys : list string) : list string :=
  if existsb (String.eqb k) keys then keys else keys ++ [k].

Definition add_record_keys (keys : list string) (rec : raw_record) : list string :=
  fold_left
    (fun keys kv =>
       let lk := Str.lower (Str.strip (fst kv)) in
       if (Str.nonempty lk && negb (String.eqb lk "_raw"))%bool
       then set_add lk keys else keys)
    (items rec) keys.

Definition _candidate_fields (inv po : raw_record) : list string :=
  add_record_keys (add_record_keys FIELDS inv) po.

(** [sorted] on strings, which Python orders by code points. *)
Fixpoint insert_sorted (k : string) (l : list string) : list string :=
  match l with
  | [] => [k]
  | x :: l' => if String.leb k x then k :: l else x :: insert_sorted k l'
  end.

Definition sorted (l : list string) : list string :=
  fold_right insert_sorted [] l.

(** *** [_resolve] *)

Definition _resolve (rec : raw_record) (std_field : string)
  (normalized : canon_record) : string :=
  (* Prefer normalized when available *)
  let val :=
    Str.strip (match Dict.get std_field normalized with
               | Some v => v
               | None => ""
               end) in
  if Str.nonempty val then val
  else
    (* Otherwise consider raw with sanity checks for important fields *)
    let raw_val :=
      if record_is_empty rec then None
      else match Dict.get std_field (items rec) with
           | Some v => v
           | None => None
           end in
    match raw_val with
    | None => ""
    | Some v =>
        let s := Str.strip v in
        if negb (Str.nonempty s) then ""
        else if String.eqb std_field "vendor" then
          (* discard label-only *)
          if is_some (fullmatch label_re s) then "" else s
        else if String.eqb std_field "po_number" then
          match search _id_core_re s with
          | Some core => group 1 core
          | None => ""
          end
        else s
    end.

(** *** [compare_records] *)

Record row : Type := Row {
  field : string;
  invoice : string;
  po : string;
  status : string
}.

(** [f in (...)] *)
Definition among (f : string) (l : list string) : bool :=
  existsb (String.eqb f) l.

Definition id_like_fields : list string :=
  ["po_number"; "invoice number"; "purchase order number"; "order number"].

(** ["match" if lv and rv and lv == rv else ("missing" if not lv or not rv else "mismatch")] *)
Definition text_status (lv rv : string) : string :=
  if (Str.nonempty lv && Str.nonempty rv && String.eqb lv rv)%bool then "match"
  else if (negb (Str.nonempty lv) || negb (Str.nonempty rv))%bool then "missing"
  else "mismatch".

(** The body of the loop once the field is known to have a value: the
    status of field [f] for the resolved values [iv] and [pv]. *)
Definition field_status (f iv pv : string) : string :=
  (* Numeric compare for totals with tolerance *)
  if among f ["total"] then
    let ni := _normalize_amount iv in
    let np := _normalize_amount pv in
    if (Str.nonempty ni && Str.nonempty np)%bool then
      match Float.of_string ni, Float.of_string np with
      | Some x, Some y =>
          if Float.ltb (Float.abs (Float.sub x y)) Float.cent
          then "match" else "mismatch"
      | _, _ => "mismatch"
      end
    else "missing"
  else
    let lv := Str.lower (_clean iv) in
    let rv := Str.lower (_clean pv) in
    (* company normalization for vendor *)
    let lv := if among f ["vendor"] then _normalize_company lv else lv in
    let rv := if among f ["vendor"] then _normalize_company rv else rv in
    (* id core compare for po_number-like fields *)
    if among f id_like_fields then
      match search _id_core_re iv, search _id_core_re pv with
      | Some li, Some ri =>
          if String.eqb (group 1 li) (group 1 ri) then "match" else "mismatch"
      | _, _ => text_status lv rv
      end
    else text_status lv rv.

(** One round of the loop over the sorted candidate fields: the rows and the
    number of mismatches so far, and the field of this round. *)
Definition compare_step (inv po : raw_record) (inv_n po_n : canon_record)
  (acc : list row * nat) (f : string) : list row * nat :=
  let '(rows, mismatches) := acc in
  let iv := _resolve inv f inv_n in
  let pv := _resolve po f po_n in
  (* skip fields entirely empty on both sides *)
  if (negb (Str.nonempty iv) && negb (Str.nonempty pv))%bool then acc
  else
    let status := field_status f iv pv in
    let mismatches :=
      if String.eqb status "mismatch" then S mismatches else mismatches in
    (rows ++ [Row f iv pv status], mismatches).

(** The table is the list of its rows, in order, under the columns
    [field], [invoice], [po], [status]. *)
Definition compare_records (inv po : raw_record) : res (list row * nat) :=
  inv_n <- _normalize_record inv ;;
  po_n <- _normalize_record po ;;
  let '(rows, mismatches) :=
    fold_left (compare_step inv po inv_n po_n)
      (sorted (_candidate_fields inv po)) ([], O) in
  match rows with
  | [] => Ok ([], O)
  | _ :: _ => Ok (rows, mismatches)
  end.

(* ================================================================== *)
(** ** The module [ocr_utils]: [extract_fields] *)

(** The extraction of fields from the text of a document, as it runs when
    the refinement by OpenAI is off ([use_openai=False], the default): the
    function then returns before any request is made. *)
Module Ocr.

Definition FIELDS : list string :=
  ["vendor"; "date"; "total"; "currency"; "po_number"].

(** [(\b\d{1,2}[\-/]\d{1,2}[\-/]\d{2,4}\b|\b\d{4}[\-/]\d{1,2}[\-/]\d{1,2}\b)] *)
Definition _date_re : regex :=
  Grp 1 (Alt
    (seq [Bnd; times digit 1 2; one_of "-/"; times digit 1 2; one_of "-/";
          times digit 2 4; Bnd])
    (seq [Bnd; times digit 4 4; one_of "-/"; times digit 1 2; one_of "-/";
          times digit 1 2; Bnd])).

(** [([A-Z]{3})?\s?\$?\s?([0-9]{1,3}(?:,[0-9]{3})*(?:\.[0-9]{2})|[0-9]+\.[0-9]{2})] *)
Definition _money_re : regex :=
  seq [opt (Grp 1 (times upper 3 3)); opt space; opt (chr "$"); opt space;
       Grp 2 (Alt
         (seq [times digit 1 3; star (Seq (chr ",") (times digit 3 3));
               Seq (chr ".") (times digit 2 2)])
         (seq [plus digit; chr "."; times digit 2 2]))].

(** [(?:Purchase\s+Order\s+Number|PO\s*#?)\s*[:\s]+([A-Z0-9\-]+)], [re.I] *)
Definition _po_re : regex :=
  seq [Alt (seq [ilit "purchase"; plus space; ilit "order"; plus space;
                 ilit "number"])
           (seq [ilit "po"; star space; opt (chr "#")]);
       star space; plus colon_or_space; Grp 1 (plus id_char)].

(** [Invoice\s*Number\s*[:\s]+([A-Z0-9\-]+)], [re.I] *)
Definition _invnum_re : regex :=
  seq [ilit "invoice"; star space; ilit "number"; star space;
       plus colon_or_space; Grp 1 (plus id_char)].

(** [[A-Z]{2,}-\d{6,}|\d{8,}] *)
Definition _id_validate_re : regex :=
  Alt (seq [at_least upper 2; chr "-"; at_least digit 6]) (at_least digit 8).

(** [len(re.findall(r'\d', s))] *)
Definition count_digits (s : string) : nat := List.length (finditer digit s).

(** [_money_re.findall(text)] *)
Definition money_findall (text : string) : list (string * string) :=
  map (fun m => (group 1 m, group 2 m)) (finditer _money_re text).

(** [next((c for c, _ in m if c), None)] *)
Fixpoint next_code (m : list (string * string)) : option string :=
  match m with
  | [] => None
  | (c, _) :: m' => if Str.nonempty c then Some c else next_code m'
  end.

(** [[l.strip() for l in text.splitlines() if l.strip()]] *)
Definition stripped_lines (text : string) : list string :=
  map Str.strip
    (filter (fun l => Str.nonempty (Str.strip l)) (Str.splitlines text)).

Definition extract_fields (text : string) : res (Dict.t (option string)) :=
  let data : Dict.t (option string) := map (fun k => (k, None)) FIELDS in
  let lines := stripped_lines text in
  data <- match lines with
          | [] => Ok data
          | _ :: _ =>
              l0 <- list_item lines 0 ;;
              Ok (Dict.set "vendor" (Some (Str.take 64 l0)) data)
          end ;;
  let data :=
    match search _date_re text with
    | Some m => Dict.set "date" (Some (group 1 m)) data
    | None => data
    end in
  (* Try Invoice Number first, then PO *)
  let m := search _invnum_re text in
  let m := match m with Some _ => m | None => search _po_re text end in
  let data :=
    match m with
    | Some m =>
        let id_val := Str.strip (group 1 m) in
        (* Only accept if it looks like a valid ID (has digits) *)
        if (is_some (search _id_validate_re id_val)
            || Nat.leb 6 (count_digits id_val))%bool
        then Dict.set "po_number" (Some id_val) data
        else data
    | None => data
    end in
  let m := money_findall text in
  match m with
  | [] => Ok data
  | _ :: _ =>
      let currency := next_code m in
      last <- list_last m ;;
      let amount := snd last in
      let data :=
        Dict.set "currency"
          (Some (match currency with Some c => c | None => "" end)) data in
      Ok (Dict.set "total" (Some amount) data)
  end.

End Ocr.

(* ================================================================== *)
(** ** The module [main_app]: from two texts to the comparison *)

(** [extract_fields(text) if text else {}], then [data["_raw"] = text] if
    there is a text. *)
Definition document_record (text : string) : res raw_record :=
  data <- (if Str.nonempty text then Ocr.extract_fields text else Ok []) ;;
  Ok (Some (if Str.nonempty text then Dict.set "_raw" (Some text) data
            else data)).

(** What [main] does with the texts of the invoice and of the purchase
    order once it has them: nothing is compared when both are empty. *)
Definition verify_texts (inv_text po_text : string)
  : res (option (list row * nat)) :=
  if (Str.nonempty inv_text || Str.nonempty po_text)%bool then
    inv_data <- document_record inv_text ;;
    po_data <- document_record po_text ;;
    result <- compare_records inv_data po_data ;;
    Ok (Some result)
  else Ok None.

(* ================================================================== *)
(** ** The modules [email_utils] and [email_utils_imap]: which mail is what *)

(** [needle in hay] *)
Fixpoint contains (hay needle : string) : bool :=
  match hay with
  | EmptyString => String.prefix needle hay
  | String _ hay' => (String.prefix needle hay || contains hay' needle)%bool
  end.

(** [any(kw in text for kw in keywords)] *)
Definition any_in (keywords : list string) (text : string) : bool :=
  existsb (contains text) keywords.

Module Gmail.

Definition INVOICE_KEYWORDS : list string :=
  ["invoice"; "billing"; "payment due"; "amount due"; "statement"].
Definition PO_KEYWORDS : list string :=
  ["purchase order"; "po number"; "purchase order number"; "order confirmation"].

Definition _is_invoice_email (subject body : string) : bool :=
  let text := Str.lower (subject ++ " " ++ body) in
  any_in INVOICE_KEYWORDS text.

Definition _is_po_email (subject body : string) : bool :=
  let text := Str.lower (subject ++ " " ++ body) in
  any_in PO_KEYWORDS text.

End Gmail.

Module Imap.

Definition INVOICE_KEYWORDS : list string :=
  ["invoice"; "billing"; "payment due"; "amount due"; "statement";
   "invoice number"; "inv-"; "inv #"].
Definition PO_KEYWORDS : list string :=
  ["purchase order"; "po number"; "purchase order number";
   "order confirmation"; "po-"; "po #"; "po_"].
Definition INVOICE_FILE_PATTERNS : list string :=
  ["invoice"; "inv"; "bill"; "statement"].
Definition PO_FILE_PATTERNS : list string := ["po"; "purchase"; "order"].

Section Attachments.
(** An attachment is a file name and a payload. *)
Context {payload : Type}.

(** The loop over the attachments: [True] at the first file name that has
    one of the patterns. *)
Fixpoint any_file (patterns : list string) (attachments : list (string * payload))
  : bool :=
  match attachments with
  | [] => false
  | (filename, _) :: rest =>
      if any_in patterns (Str.lower filename) then true
      else any_file patterns rest
  end.

Definition _is_invoice_email (subject body : string)
  (attachments : list (string * payload)) : bool :=
  let text := Str.lower (subject ++ " " ++ body) in
  (* Check keywords in email text *)
  if any_in INVOICE_KEYWORDS text then true
  (* Check attachment filenames *)
  else any_file INVOICE_FILE_PATTERNS attachments.

Definition _is_po_email (subject body : string)
  (attachments : list (string * payload)) : bool :=
  let text := Str.lower (subject ++ " " ++ body) in
  if any_in PO_KEYWORDS text then true
  else any_file PO_FILE_PATTERNS attachments.

End Attachments.

End Imap.

(* ================================================================== *)
(** * Specification-level definitions *)

(** A canonical record has the five canonical fields, in their order. *)
Definition fields_ok (r : canon_record) : Prop := Dict.keys r = FIELDS.

(** A step of the normaliser that fails on no canonical record, keeps the
    fields, and leaves every field but [K] as it was. *)
Definition touches_only (K : string) (step : canon_record -> res canon_record)
  : Prop :=
  forall r, fields_ok r ->
    exists r', step r = Ok r' /\ fields_ok r' /\
               forall k, k <> K -> Dict.get k r' = Dict.get k r.

(** The row that one round of the comparator's loop appends for field [f],
    if any. *)
Definition row_for (inv po : raw_record) (inv_n po_n : canon_record)
  (f : string) : list row :=
  let iv := _resolve inv f inv_n in
  let pv := _resolve po f po_n in
  if (negb (Str.nonempty iv) && negb (Str.nonempty pv))%bool then []
  else [Row f iv pv (field_status f iv pv)].

Definition count_mismatch (rows : list row) : nat :=
  List.length (filter (fun r => String.eqb (status r) "mismatch") rows).

(** [k] is a key of [rec] that the comparator does not reserve, and [f] is
    the name it goes by. *)
Definition names_key (rec : raw_record) (f : string) : Prop :=
  exists k v, In (k, v) (items rec) /\ f = Str.lower (Str.strip k) /\
              f <> "" /\ f <> "_raw".



(** The identifier core of a value: group 1 of [_id_core_re.search]. *)
Definition id_core (s : string) : option string :=
  option_map (group 1) (search _id_core_re s).

(** A canonical record, presented as a raw record. *)
Definition as_raw (c : canon_record) : raw_record :=
  Some (map (fun kv => (fst kv, Some (snd kv))) c).

(** The record as it stands when the regex fallbacks begin: after synonym
    resolution and the two sanity checks. *)
Definition resolved_fields (rec : raw_record) : res canon_record :=
  result <- sanitize_vendor (apply_synonyms (lower_map rec) empty_result) ;;
  sanitize_po result.

(** Of two searches, the match that comes first in the document. *)
Definition first_in_document (a b : option mtch) : option mtch :=
  match a, b with
  | Some x, Some y => if Nat.leb (start x) (start y) then a else b
  | Some _, None => a
  | None, _ => b
  end.

(** The length of the longest prefix of [s] made of characters of class [p]. *)
Fixpoint span (p : ascii -> bool) (s : string) : nat :=
  match s with
  | String a s' => if p a then S (span p s') else O
  | EmptyString => O
  end.

(** What [re.sub(r"\s+", " ", s)] computes: each run of blanks becomes one
    space.  [in_run] tells that the previous character was a blank. *)
Fixpoint squeeze (in_run : bool) (s : string) : string :=
  match s with
  | EmptyString => EmptyString
  | String a s' =>
      if Char.is_space a then
        if in_run then squeeze true s' else String " " (squeeze true s')
      else String a (squeeze false s')
  end.

(** The only blanks of [s] are single spaces. *)
Fixpoint squeezed (after_blank : bool) (s : string) : bool :=
  match s with
  | EmptyString => true
  | String a s' =>
      if Char.is_space a
      then (Ascii.eqb a " " && negb after_blank && squeezed true s')%bool
      else squeezed false s'
  end.

(** [s] is made of blanks only. *)
Fixpoint blank (s : string) : bool :=
  match s with
  | EmptyString => true
  | String a s' => (Char.is_space a && blank s')%bool
  end.

(** [[l.rstrip() for l in raw.splitlines()]] *)
Definition raw_lines (raw : string) : list string :=
  map Str.rstrip (Str.splitlines raw).

(** The line right after the first label line that has a non-empty line
    right after it, trimmed: what the next-line loop looks for. *)
Fixpoint following_line (lines : list string) : option string :=
  match lines with
  | [] => None
  | l :: rest =>
      match rest with
      | [] => None
      | l' :: _ =>
          if (is_label_line l && Str.nonempty (Str.strip l'))%bool
          then Some (Str.strip l')
          else following_line rest
      end
  end.

(** The reading of "the next non-empty line" that passes over empty lines:
    the first non-empty line, trimmed, after the first label line. *)
Fixpoint first_nonempty_line (lines : list string) : option string :=
  match lines with
  | [] => None
  | l :: rest =>
      if Str.nonempty (Str.strip l) then Some (Str.strip l)
      else first_nonempty_line rest
  end.

Fixpoint next_nonempty_after_label (lines : list string) : option string :=
  match lines with
  | [] => None
  | l :: rest =>
      if is_label_line l then first_nonempty_line rest
      else next_nonempty_after_label rest
  end.

Definition LF : string := String Char.newline "".
Definition FF : string := String (ascii_of_N 12) "".

(** A second page that opens with a label line, an empty line, and a name. *)
Definition two_pages : string := "page1" ++ FF ++ "Seller:" ++ LF ++ LF ++ "Acme Corp".

Fixpoint all_digits (s : string) : bool :=
  match s with
  | EmptyString => true
  | String a s' => (Char.is_digit a && all_digits s')%bool
  end.

(** The number that amount normalisation yields for a value, if any. *)
Definition amount (s : string) : option Float.float :=
  Float.of_string (_normalize_amount s).

(** [abs(x - y) < 0.01] *)
Definition within_tolerance (x y : Float.float) : bool :=
  Float.ltb (Float.abs (Float.sub x y)) Float.cent.

(** A value with case and blanks folded. *)
Definition fold_text (s : string) : string := Str.lower (_clean s).







(** [rec.get(f)] on a raw record, [None] for an absent or empty record. *)
Definition raw_value (rec : raw_record) (f : string) : option string :=
  if record_is_empty rec then None
  else match Dict.get f (items rec) with
       | Some v => v
       | None => None
       end.

(** The sanity checks that resolution applies to a trimmed raw value:
    a bare label is no vendor, a [po_number] is cut down to its identifier
    core, and is nothing if it has none. *)
Definition sanitized (f s : string) : string :=
  if String.eqb s "" then ""
  else if String.eqb f "vendor" then
    if is_some (fullmatch label_re s) then "" else s
  else if String.eqb f "po_number" then
    match id_core s with Some core => core | None => "" end
  else s.

(** A pattern that matches no empty string, by its shape. *)
Fixpoint consuming (r : regex) : bool :=
  match r with
  | Chr _ => true
  | Seq r1 r2 => (consuming r1 || consuming r2)%bool
  | Alt r1 r2 => (consuming r1 && consuming r2)%bool
  | Rep r' lo _ => (Nat.leb 1 lo && consuming r')%bool
  | Grp _ r' => consuming r'
  | Bnd | Bol | Eol => false
  end.

(** Every repeated sub-pattern matches no empty string: a greedy loop then
    makes at most as many rounds as there are characters left. *)
Fixpoint loops_consume (r : regex) : bool :=
  match r with
  | Chr _ | Bnd | Bol | Eol => true
  | Seq r1 r2 | Alt r1 r2 => (loops_consume r1 && loops_consume r2)%bool
  | Rep r' _ _ => (consuming r' && loops_consume r')%bool
  | Grp _ r' => loops_consume r'
  end.

(** The patterns of the module. *)
Definition patterns : list regex :=
  [_date_re; _money_re; _po_re; _inv_re; _id_core_re; _vendor_re;
   _seller_inline_re; _month_re; spaces_re; not_amount_re; punct_re;
   private_limited_re; suffix_re; label_re; prefixed_id_re; long_digits_re].

(** Two continuations that agree on the subjects of length [n] at most. *)
Definition agree_upto (n : nat) (k k' : cont) : Prop :=
  forall p s c, String.length s <= n -> k p s c = k' p s c.

(** [s] without its characters of class [p]. *)
Fixpoint without (p : ascii -> bool) (s : string) : string :=
  match s with
  | EmptyString => EmptyString
  | String a s' => if p a then without p s' else String a (without p s')
  end.

(** A character that [float] reads in an amount. *)
Definition amount_char (a : ascii) : bool :=
  (Char.is_digit a || Ascii.eqb a ".")%bool.

Fixpoint all_chars (p : ascii -> bool) (s : string) : bool :=
  match s with
  | EmptyString => true
  | String a s' => (p a && all_chars p s')%bool
  end.

(* ================================================================== *)
(** * Further specification-level definitions *)

(** A list of names in strictly ascending order. *)
Fixpoint ascending (l : list string) : bool :=
  match l with
  | [] => true
  | a :: rest => (forallb (String.ltb a) rest && ascending rest)%bool
  end.

(** A row read from the other side: the two values change places. *)
Definition swap_sides (r : row) : row :=
  Row (field r) (po r) (invoice r) (status r).

(** The digits and points of a text, in order: what is left of it once the
    characters that [float] could not read in an amount are gone. *)
Definition digits_and_points (s : string) : string :=
  without (fun a => negb (amount_char a)) s.

(** A number written with digits only before the point and exactly two
    digits after it. *)
Definition two_decimals (s : string) : Prop :=
  exists ip fp, s = (ip ++ "." ++ fp)%string /\
    all_digits ip = true /\ ip <> "" /\
    all_digits fp = true /\ String.length fp = 2.

(** Two raw records that differ in the writing of their keys only: the same
    values in the same order, under keys that are equal once trimmed and
    put in lower case. *)
Definition same_up_to_key_case (rec rec' : raw_record) : Prop :=
  Forall2 (fun kv kv' =>
             Str.lower (Str.strip (fst kv)) = Str.lower (Str.strip (fst kv')) /\
             snd kv = snd kv')
          (items rec) (items rec').

(** The number of characters of [s] that are in the class [p]. *)
Fixpoint count (p : ascii -> bool) (s : string) : nat :=
  match s with
  | EmptyString => 0
  | String a s' => (if p a then 1 else 0) + count p s'
  end.

(** A point or a comma. *)
Definition punctuation (a : ascii) : bool :=
  (Ascii.eqb a "." || Ascii.eqb a ",")%bool.

(** Two lists of attachments whose file names differ in case only. *)
Definition same_names {payload : Type} (atts atts' : list (string * payload))
  : Prop :=
  Forall2 (fun x y => Str.lower (fst x) = Str.lower (fst y)) atts atts'.

(* ================================================================== *)
(** * Dictionaries *)

Section DictFacts.
Context {V : Type}.
Implicit Types (d : Dict.t V) (k : string) (v : V).

Lemma dict_keys_set_in d k v :
  In k (Dict.keys d) -> Dict.keys (Dict.set k v d) = Dict.keys d.
Proof.
  induction d as [|[k' v'] d IH]; simpl; [tauto|].
  intros [->|H].
  - now rewrite String.eqb_refl.
  - destruct (String.eqb k' k); simpl; [reflexivity|].
    now rewrite IH.
Qed.

Lemma dict_get_set_same d k v : Dict.get k (Dict.set k v d) = Some v.
Proof.
  induction d as [|[k' v'] d IH]; simpl.
  - now rewrite String.eqb_refl.
  - destruct (String.eqb k' k) eqn:E; simpl; rewrite E; auto.
Qed.

Lemma dict_get_set_other d k k' v :
  k <> k' -> Dict.get k (Dict.set k' v d) = Dict.get k d.
Proof.
  intros Hne. induction d as [|[k0 v0] d IH]; simpl.
  - destruct (String.eqb_spec k' k); congruence.
  - destruct (String.eqb_spec k0 k'); simpl.
    + subst. destruct (String.eqb_spec k' k); congruence.
    + destruct (String.eqb_spec k0 k); auto.
Qed.

Lemma dict_get_in_keys d k : In k (Dict.keys d) -> exists v, Dict.get k d = Some v.
Proof.
  induction d as [|[k' v'] d IH]; simpl; [tauto|].
  intros H. destruct (String.eqb_spec k' k); eauto.
  destruct H; [congruence|auto].
Qed.

Lemma dict_get_some_in d k v : Dict.get k d = Some v -> In (k, v) d.
Proof.
  induction d as [|[k' v'] d IH]; simpl; [discriminate|].
  destruct (String.eqb_spec k' k).
  - intros [= ->]. subst. now left.
  - auto.
Qed.

End DictFacts.

Lemma dict_item_ok (r : canon_record) k :
  fields_ok r -> In k FIELDS -> exists v, Dict.get k r = Some v /\ Dict.item k r = Ok v.
Proof.
  intros Hr Hk. unfold fields_ok in Hr. rewrite <- Hr in Hk.
  destruct (dict_get_in_keys _ _ Hk) as [v Hv].
  exists v. unfold Dict.item. now rewrite Hv.
Qed.

Lemma fields_ok_set (r : canon_record) k v :
  fields_ok r -> In k FIELDS -> fields_ok (Dict.set k v r).
Proof.
  unfold fields_ok. intros Hr Hk. rewrite dict_keys_set_in; [assumption|].
  now rewrite Hr.
Qed.

Lemma fields_ok_empty : fields_ok empty_result.
Proof. reflexivity. Qed.

(* ================================================================== *)
(** * The steps of the record normaliser *)

Lemma touches_keep K r : fields_ok r ->
  exists r', Ok r = Ok r' /\ fields_ok r' /\
             forall k, k <> K -> Dict.get k r' = Dict.get k r.
Proof. intros; exists r; auto. Qed.

Lemma touches_set K v r : fields_ok r -> In K FIELDS ->
  exists r', Ok (Dict.set K v r) = Ok r' /\ fields_ok r' /\
             forall k, k <> K -> Dict.get k r' = Dict.get k r.
Proof.
  intros Hr HK. exists (Dict.set K v r). split; [reflexivity|].
  split; [now apply fields_ok_set|].
  intros k Hk. now apply dict_get_set_other.
Qed.

Ltac in_fields := simpl; tauto.

(** Reads [result[k]] on a record that has the canonical fields. *)
Ltac read_item Hr k v Hget :=
  let Hitem := fresh "Hitem" in
  destruct (dict_item_ok _ k Hr ltac:(in_fields)) as (v & Hget & Hitem);
  rewrite Hitem; cbn [bind].

Ltac touched Hr :=
  first [ apply touches_keep; exact Hr
        | apply touches_set; [exact Hr | in_fields] ].

Lemma sanitize_vendor_touches : touches_only "vendor" sanitize_vendor.
Proof.
  intros r Hr. unfold sanitize_vendor.
  read_item Hr "vendor" v Hv.
  destruct (Str.nonempty v); [|touched Hr].
  cbn [bind]. destruct (is_some _); touched Hr.
Qed.

Lemma sanitize_po_touches : touches_only "po_number" sanitize_po.
Proof.
  intros r Hr. unfold sanitize_po.
  read_item Hr "po_number" v Hv.
  destruct (Str.nonempty v); [|touched Hr].
  cbn [bind]. destruct (negb _); touched Hr.
Qed.

Lemma fallback_date_touches raw : touches_only "date" (fallback_date raw).
Proof.
  intros r Hr. unfold fallback_date.
  read_item Hr "date" v Hv.
  destruct (negb (Str.nonempty v)); [|touched Hr].
  destruct (first_some _ _); touched Hr.
Qed.

Lemma fallback_po_touches raw : touches_only "po_number" (fallback_po raw).
Proof.
  intros r Hr. unfold fallback_po.
  read_item Hr "po_number" v Hv.
  destruct (negb (Str.nonempty v)); [|touched Hr].
  destruct (search _inv_re raw); [touched Hr|].
  destruct (search _po_re raw); touched Hr.
Qed.

Lemma list_last_cons {A : Type} (x : A) l : exists y, list_last (x :: l) = Ok y.
Proof.
  unfold list_last. destruct (rev (x :: l)) eqn:E; eauto.
  apply (f_equal (@List.length A)) in E. rewrite length_rev in E. discriminate.
Qed.

Lemma fallback_total_touches raw : touches_only "total" (fallback_total raw).
Proof.
  intros r Hr. unfold fallback_total.
  read_item Hr "total" v Hv.
  destruct (negb (Str.nonempty v)); [|touched Hr].
  destruct (money_findall raw) as [|m ms]; [touched Hr|].
  destruct (list_last_cons m ms) as [y ->]; cbn [bind].
  touched Hr.
Qed.

Lemma fallback_currency_touches raw :
  touches_only "currency" (fallback_currency raw).
Proof.
  intros r Hr. unfold fallback_currency.
  read_item Hr "currency" v Hv.
  destruct (negb (Str.nonempty v)); [|touched Hr].
  destruct (money_findall raw); touched Hr.
Qed.

(** The next-line loop reads [lines[idx + 1]] only below [len(lines)]. *)
Lemma next_line_loop_ok lines : forall todo idx,
  exists found, next_line_loop lines idx todo = Ok found.
Proof.
  induction todo as [|line todo IH]; intros idx; simpl; [eauto|].
  destruct (is_label_line line); [|apply IH].
  destruct (Nat.ltb (idx + 1) (List.length lines)) eqn:E.
  - apply Nat.ltb_lt in E. unfold list_item.
    destruct (nth_error lines (idx + 1)) eqn:N.
    + cbn [bind]. destruct (Str.nonempty _); [eauto|apply IH].
    + apply nth_error_None in N. lia.
  - cbn [bind]. destruct (Str.nonempty ""); [eauto|apply IH].
Qed.

Lemma fallback_vendor_touches raw : touches_only "vendor" (fallback_vendor raw).
Proof.
  intros r Hr. unfold fallback_vendor.
  read_item Hr "vendor" v Hv.
  destruct (negb (Str.nonempty v)); [|touched Hr].
  set (r1 := match search _seller_inline_re raw with
             | Some m => Dict.set "vendor" _ r | None => r end).
  assert (H1 : fields_ok r1 /\ forall k, k <> "vendor" -> Dict.get k r1 = Dict.get k r).
  { subst r1. destruct (search _seller_inline_re raw).
    - split; [apply fields_ok_set; [assumption|in_fields]|].
      intros k Hk. now apply dict_get_set_other.
    - auto. }
  destruct H1 as [Hr1 Hf1].
  read_item Hr1 "vendor" v1 Hv1.
  assert (H2 : exists r2,
    (if negb (Str.nonempty v1)
     then found <- next_line_loop (map Str.rstrip (Str.splitlines raw)) 0
                     (map Str.rstrip (Str.splitlines raw)) ;;
          match found with
          | Some name => Ok (Dict.set "vendor" name r1)
          | None => Ok r1
          end
     else Ok r1) = Ok r2 /\ fields_ok r2 /\
    forall k, k <> "vendor" -> Dict.get k r2 = Dict.get k r1).
  { destruct (negb (Str.nonempty v1)); [|touched Hr1].
    destruct (next_line_loop_ok (map Str.rstrip (Str.splitlines raw))
                (map Str.rstrip (Str.splitlines raw)) 0) as [found ->].
    cbn [bind]. destruct found; touched Hr1. }
  destruct H2 as (r2 & -> & Hr2 & Hf2). cbn [bind].
  read_item Hr2 "vendor" v2 Hv2.
  assert (H3 : exists r', (if negb (Str.nonempty v2)
     then match search _vendor_re raw with
          | Some m => Ok (Dict.set "vendor" (Str.take 64 (_clean (group 1 m))) r2)
          | None => Ok r2
          end
     else Ok r2) = Ok r' /\ fields_ok r' /\
     forall k, k <> "vendor" -> Dict.get k r' = Dict.get k r2).
  { destruct (negb (Str.nonempty v2)); [|touched Hr2].
    destruct (search _vendor_re raw); touched Hr2. }
  destruct H3 as (r' & -> & Hr' & Hf3).
  exists r'. split; [reflexivity|]. split; [assumption|].
  intros k Hk. now rewrite Hf3, Hf2, Hf1.
Qed.

Lemma apply_synonyms_fields lm r : fields_ok r -> fields_ok (apply_synonyms lm r).
Proof.
  unfold apply_synonyms.
  assert (G : forall syn r, fields_ok r ->
            (forall sk, In sk syn -> In (fst sk) FIELDS) ->
            fields_ok (fold_left (fun r sk =>
              match first_present (snd sk) lm with
              | Some v => Dict.set (fst sk) v r
              | None => r
              end) syn r)).
  { induction syn as [|sk syn IH]; intros r0 Hr0 Hin; simpl; [assumption|].
    apply IH; [|intros; apply Hin; now right].
    destruct (first_present (snd sk) lm); [|assumption].
    apply fields_ok_set; [assumption|]. apply Hin. now left. }
  intros Hr. apply G; [assumption|].
  intros sk Hsk. simpl in Hsk.
  repeat (destruct Hsk as [<-|Hsk]; [in_fields|]). contradiction.
Qed.

Lemma fallbacks_ok raw r : fields_ok r ->
  exists r', fallbacks raw r = Ok r' /\ fields_ok r'.
Proof.
  intros Hr. unfold fallbacks. destruct (Str.nonempty raw); [|eauto].
  destruct (fallback_date_touches raw r Hr) as (r1 & -> & Hr1 & _); cbn [bind].
  destruct (fallback_po_touches raw r1 Hr1) as (r2 & -> & Hr2 & _); cbn [bind].
  destruct (fallback_total_touches raw r2 Hr2) as (r3 & -> & Hr3 & _); cbn [bind].
  destruct (fallback_currency_touches raw r3 Hr3) as (r4 & -> & Hr4 & _); cbn [bind].
  destruct (fallback_vendor_touches raw r4 Hr4) as (r5 & -> & Hr5 & _).
  eauto.
Qed.

Lemma normalize_record_ok rec :
  exists c, _normalize_record rec = Ok c /\ fields_ok c.
Proof.
  unfold _normalize_record. destruct (record_is_empty rec).
  - exists empty_result. split; [reflexivity|apply fields_ok_empty].
  - pose proof (apply_synonyms_fields (lower_map rec) _ fields_ok_empty) as H0.
    destruct (sanitize_vendor_touches _ H0) as (r1 & -> & Hr1 & _); cbn [bind].
    destruct (sanitize_po_touches _ Hr1) as (r2 & -> & Hr2 & _); cbn [bind].
    now apply fallbacks_ok.
Qed.

(* ================================================================== *)
(** * The comparator's loop *)

Lemma nonempty_true s : Str.nonempty s = true <-> s <> "".
Proof. destruct s; simpl; split; congruence. Qed.

Lemma nonempty_false s : Str.nonempty s = false <-> s = "".
Proof. destruct s; simpl; split; congruence. Qed.

Lemma fold_compare_step inv po inv_n po_n : forall fs rows n,
  fold_left (compare_step inv po inv_n po_n) fs (rows, n) =
  (rows ++ flat_map (row_for inv po inv_n po_n) fs,
   n + count_mismatch (flat_map (row_for inv po inv_n po_n) fs)).
Proof.
  induction fs as [|f fs IH]; intros rows n; cbn [fold_left flat_map].
  - now rewrite app_nil_r, Nat.add_0_r.
  - replace (compare_step inv po inv_n po_n (rows, n) f)
      with (rows ++ row_for inv po inv_n po_n f,
            n + count_mismatch (row_for inv po inv_n po_n f)).
    + rewrite IH, <- app_assoc. f_equal.
      unfold count_mismatch. rewrite filter_app, length_app. lia.
    + unfold compare_step, row_for, count_mismatch.
      destruct (negb _ && negb _)%bool; simpl.
      * now rewrite app_nil_r, Nat.add_0_r.
      * destruct (String.eqb (field_status f _ _) "mismatch"); simpl;
          f_equal; lia.
Qed.

Lemma compare_records_eq inv po inv_n po_n :
  _normalize_record inv = Ok inv_n ->
  _normalize_record po = Ok po_n ->
  compare_records inv po =
  Ok (flat_map (row_for inv po inv_n po_n) (sorted (_candidate_fields inv po)),
      count_mismatch
        (flat_map (row_for inv po inv_n po_n) (sorted (_candidate_fields inv po)))).
Proof.
  intros Hi Hp. unfold compare_records. rewrite Hi, Hp. cbn [bind].
  rewrite fold_compare_step. simpl.
  destruct (flat_map _ _); reflexivity.
Qed.

(** The comparator returns on every pair of records. *)
Lemma compare_records_ok inv po :
  exists inv_n po_n,
    _normalize_record inv = Ok inv_n /\ fields_ok inv_n /\
    _normalize_record po = Ok po_n /\ fields_ok po_n /\
    compare_records inv po =
    Ok (flat_map (row_for inv po inv_n po_n) (sorted (_candidate_fields inv po)),
        count_mismatch
          (flat_map (row_for inv po inv_n po_n)
             (sorted (_candidate_fields inv po)))).
Proof.
  destruct (normalize_record_ok inv) as (inv_n & Hi & Hfi).
  destruct (normalize_record_ok po) as (po_n & Hp & Hfp).
  exists inv_n, po_n. repeat split; try assumption.
  now apply compare_records_eq.
Qed.

Lemma in_row_for inv po inv_n po_n f r :
  In r (row_for inv po inv_n po_n f) <->
  (_resolve inv f inv_n <> "" \/ _resolve po f po_n <> "") /\
  r = Row f (_resolve inv f inv_n) (_resolve po f po_n)
        (field_status f (_resolve inv f inv_n) (_resolve po f po_n)).
Proof.
  unfold row_for.
  destruct (Str.nonempty (_resolve inv f inv_n)) eqn:Ei;
  destruct (Str.nonempty (_resolve po f po_n)) eqn:Ep; simpl;
  rewrite ?nonempty_true, ?nonempty_false in *;
  split; try tauto; try (intros [H|[]]; split; [tauto|now symmetry]);
  try (intros [_ ->]; now left).
Qed.

Lemma in_insert_sorted k x l : In x (insert_sorted k l) <-> x = k \/ In x l.
Proof.
  induction l as [|y l IH]; simpl.
  - intuition.
  - destruct (String.leb k y); simpl; rewrite ?IH; intuition.
Qed.

Lemma in_sorted x l : In x (sorted l) <-> In x l.
Proof.
  induction l as [|y l IH]; simpl; [tauto|].
  rewrite in_insert_sorted, IH. intuition.
Qed.

Lemma in_set_add x k keys : In x (set_add k keys) <-> x = k \/ In x keys.
Proof.
  unfold set_add. destruct (existsb (String.eqb k) keys) eqn:E.
  - split; [auto|]. intros [->|H]; [|assumption].
    apply existsb_exists in E. destruct E as (y & Hy & Hk).
    apply String.eqb_eq in Hk. now subst.
  - rewrite in_app_iff. simpl. intuition.
Qed.

Lemma in_add_record_keys rec : forall keys f,
  In f (add_record_keys keys rec) <-> In f keys \/ names_key rec f.
Proof.
  unfold add_record_keys, names_key.
  induction (items rec) as [|kv l IH]; intros keys f; simpl.
  - split; [auto|]. intros [H|(k & v & [] & _)]. assumption.
  - rewrite IH. clear IH.
    set (lk := Str.lower (Str.strip (fst kv))).
    assert (Hcond : (Str.nonempty lk && negb (String.eqb lk "_raw"))%bool = true
                    <-> lk <> "" /\ lk <> "_raw").
    { rewrite andb_true_iff, negb_true_iff, nonempty_true, String.eqb_neq. tauto. }
    destruct (Str.nonempty lk && negb (String.eqb lk "_raw"))%bool.
    + rewrite in_set_add. split.
      * intros [[->|H]|(k & v & H & E)].
        -- right. exists (fst kv), (snd kv). destruct kv; simpl.
           split; [now left|]. split; [reflexivity|]. now apply Hcond.
        -- now left.
        -- right. exists k, v. tauto.
      * intros [H|(k & v & [->|H] & E)].
        -- left. now right.
        -- left. left. simpl in lk. tauto.
        -- right. exists k, v. tauto.
    + split.
      * intros [H|(k & v & H & E)]; [now left|]. right. exists k, v. tauto.
      * intros [H|(k & v & [->|H] & E)]; [now left| |].
        -- exfalso. simpl in lk. destruct E as (-> & E).
           assert (false = true) by now apply Hcond. discriminate.
        -- right. exists k, v. tauto.
Qed.

Lemma in_candidate_fields inv po f :
  In f (_candidate_fields inv po) <->
  In f FIELDS \/ names_key inv f \/ names_key po f.
Proof.
  unfold _candidate_fields. rewrite !in_add_record_keys. tauto.
Qed.

(** The rows of the table are the rows of the candidate fields. *)
Lemma in_rows inv po inv_n po_n r :
  In r (flat_map (row_for inv po inv_n po_n) (sorted (_candidate_fields inv po)))
  <-> exists f, (In f FIELDS \/ names_key inv f \/ names_key po f) /\
                In r (row_for inv po inv_n po_n f).
Proof.
  rewrite in_flat_map. split; intros (f & Hf & Hr); exists f; split; try assumption.
  - now apply in_candidate_fields, in_sorted.
  - now apply in_sorted, in_candidate_fields.
Qed.

(* ================================================================== *)
(** * Strings: lengths, blanks and trimming *)

Lemma length_take n : forall s, n <= String.length s -> String.length (Str.take n s) = n.
Proof.
  induction n as [|n IH]; intros [|a s] H; simpl in *; try lia.
  now rewrite IH by lia.
Qed.

Lemma length_drop n : forall s, String.length (Str.drop n s) = String.length s - n.
Proof.
  induction n as [|n IH]; intros [|a s]; simpl; auto.
Qed.

Lemma span_le p s : span p s <= String.length s.
Proof. induction s as [|a s IH]; simpl; [lia|]. destruct (p a); lia. Qed.

Lemma is_space_lower a : Char.is_space (Char.lower a) = Char.is_space a.
Proof. destruct a as [[] [] [] [] [] [] [] []]; reflexivity. Qed.

Lemma lower_lower_char a : Char.lower (Char.lower a) = Char.lower a.
Proof. destruct a as [[] [] [] [] [] [] [] []]; reflexivity. Qed.

Lemma lower_lower s : Str.lower (Str.lower s) = Str.lower s.
Proof.
  induction s as [|a s IH]; simpl; [reflexivity|].
  now rewrite lower_lower_char, IH.
Qed.

Lemma nonempty_lower s : Str.nonempty (Str.lower s) = Str.nonempty s.
Proof. destruct s; reflexivity. Qed.

Lemma rstrip_blank s : Str.nonempty (Str.rstrip s) = negb (blank s).
Proof.
  induction s as [|a s IH]; simpl; [reflexivity|].
  rewrite IH. destruct (Char.is_space a), (blank s); reflexivity.
Qed.

Lemma lstrip_blank s : Str.nonempty (Str.lstrip s) = negb (blank s).
Proof.
  induction s as [|a s IH]; simpl; [reflexivity|].
  destruct (Char.is_space a); [assumption|reflexivity].
Qed.

Lemma blank_rstrip s : blank (Str.rstrip s) = blank s.
Proof.
  induction s as [|a s IH]; simpl; [reflexivity|].
  pose proof (rstrip_blank s) as H.
  destruct (Char.is_space a) eqn:Ea; simpl.
  - destruct (Str.nonempty (Str.rstrip s)) eqn:En; simpl.
    + now rewrite Ea, IH.
    + symmetry in H. apply negb_false_iff in H. now rewrite H.
  - now rewrite Ea.
Qed.

(** A trimmed string is empty exactly when the string is blank. *)
Lemma strip_blank s : Str.nonempty (Str.strip s) = negb (blank s).
Proof. unfold Str.strip. now rewrite lstrip_blank, blank_rstrip. Qed.

Lemma blank_lstrip s : blank (Str.lstrip s) = blank s.
Proof.
  induction s as [|a s IH]; simpl; [reflexivity|].
  destruct (Char.is_space a) eqn:Ea; simpl; [assumption|now rewrite Ea].
Qed.

Lemma blank_strip s : blank (Str.strip s) = blank s.
Proof. unfold Str.strip. now rewrite blank_lstrip, blank_rstrip. Qed.

Lemma rstrip_rstrip s : Str.rstrip (Str.rstrip s) = Str.rstrip s.
Proof.
  induction s as [|a s IH]; simpl; [reflexivity|].
  destruct (Char.is_space a && negb (Str.nonempty (Str.rstrip s)))%bool eqn:E;
    simpl; [reflexivity|].
  now rewrite IH, E.
Qed.

Lemma rstrip_lstrip_fixed s :
  Str.rstrip s = s -> Str.rstrip (Str.lstrip s) = Str.lstrip s.
Proof.
  induction s as [|a s IH]; simpl; [reflexivity|].
  destruct (Char.is_space a) eqn:Ea; simpl.
  - destruct (Str.nonempty (Str.rstrip s)); simpl; [|discriminate].
    intros [= H]. auto.
  - rewrite Ea. simpl. auto.
Qed.

Lemma lstrip_lstrip s : Str.lstrip (Str.lstrip s) = Str.lstrip s.
Proof.
  induction s as [|a s IH]; simpl; [reflexivity|].
  destruct (Char.is_space a) eqn:Ea; simpl; [assumption|now rewrite Ea].
Qed.

Lemma strip_strip s : Str.strip (Str.strip s) = Str.strip s.
Proof.
  unfold Str.strip.
  rewrite (rstrip_lstrip_fixed (Str.rstrip s)) by apply rstrip_rstrip.
  apply lstrip_lstrip.
Qed.

Lemma rstrip_lower s : Str.rstrip (Str.lower s) = Str.lower (Str.rstrip s).
Proof.
  induction s as [|a s IH]; simpl; [reflexivity|].
  rewrite is_space_lower, IH, nonempty_lower.
  destruct (Char.is_space a && _)%bool; reflexivity.
Qed.

Lemma lstrip_lower s : Str.lstrip (Str.lower s) = Str.lower (Str.lstrip s).
Proof.
  induction s as [|a s IH]; simpl; [reflexivity|].
  rewrite is_space_lower. destruct (Char.is_space a); [assumption|reflexivity].
Qed.

Lemma strip_lower s : Str.strip (Str.lower s) = Str.lower (Str.strip s).
Proof. unfold Str.strip. now rewrite rstrip_lower, lstrip_lower. Qed.

(* ================================================================== *)
(** * The matcher on a repeated character class *)

(** A greedy loop over a character class, before a continuation that
    always accepts and does not look back: the loop takes the whole run. *)
Lemma rep_chr_total p lo (k : cont) (g : string -> caps -> string * caps) :
  (forall prev s c, k prev s c = Some (g s c)) ->
  forall fuel s i prev c,
  String.length s <= fuel ->
  rep (rmatch (Chr p)) lo None fuel i prev s c k =
  if Nat.leb lo (i + span p s) then Some (g (Str.drop (span p s) s) c) else None.
Proof.
  intros Hk. induction fuel as [|fuel IH]; intros s i prev c Hlen.
  - destruct s; simpl in Hlen; [|lia]. simpl. now rewrite Nat.add_0_r, Hk.
  - cbn [rep below]. destruct s as [|a s]; cbn [rmatch span].
    + now rewrite Nat.add_0_r, Hk.
    + destruct (p a) eqn:Ea.
      * simpl in Hlen. rewrite IH by lia.
        replace (i + S (span p s)) with (S i + span p s) by lia.
        destruct (Nat.leb lo (S i + span p s)) eqn:E; [reflexivity|].
        apply Nat.leb_gt in E.
        destruct (Nat.leb lo i) eqn:E'; [|reflexivity].
        apply Nat.leb_le in E'. lia.
      * now rewrite Nat.add_0_r, Hk.
Qed.

Lemma rmatch_rep r lo hi prev s c k :
  rmatch (Rep r lo hi) prev s c k = rep (rmatch r) lo hi (String.length s) 0 prev s c k.
Proof. reflexivity. Qed.

(** [\s+] at a position: the whole run of blanks that starts there. *)
Lemma match_here_spaces pos prev s :
  match_here spaces_re pos prev s =
  match span Char.is_space s with
  | O => None
  | S n => Some (Mtch pos (Str.take (S n) s) [])
  end.
Proof.
  unfold match_here, spaces_re, plus, space.
  rewrite rmatch_rep,
    (rep_chr_total _ _ accept (fun s c => (s, c))) by (reflexivity || lia). cbn [Nat.add].
  pose proof (span_le Char.is_space s) as Hle.
  destruct (span Char.is_space s) as [|n] eqn:E; cbn [Nat.leb]; [reflexivity|].
  rewrite length_drop.
  now replace (String.length s - (String.length s - S n)) with (S n) by lia.
Qed.

Lemma sub_spaces_from : forall s prev,
  sub_from spaces_re " " prev 0 s = squeeze false s /\
  sub_from spaces_re " " prev (span Char.is_space s) s = squeeze true s.
Proof.
  induction s as [|a s IH]; intros prev; [split; reflexivity|].
  destruct (IH (Some a)) as [IH0 IH1].
  assert (H0 : sub_from spaces_re " " prev 0 (String a s) = squeeze false (String a s)).
  { cbn [sub_from]. rewrite match_here_spaces. cbn [span squeeze].
    destruct (Char.is_space a) eqn:Ea.
    - cbn [whole]. rewrite length_take
        by (pose proof (span_le Char.is_space s); simpl; lia).
      rewrite IH1. reflexivity.
    - now rewrite IH0. }
  split; [exact H0|].
  cbn [span]. destruct (Char.is_space a) eqn:Ea.
  - cbn [sub_from squeeze]. rewrite Ea. apply IH1.
  - rewrite H0. cbn [squeeze]. now rewrite Ea.
Qed.

Lemma sub_spaces s : sub spaces_re " " s = squeeze false s.
Proof. apply sub_spaces_from. Qed.

Lemma clean_squeeze s : _clean s = Str.strip (squeeze false s).
Proof. unfold _clean. now rewrite sub_spaces. Qed.

(* ================================================================== *)
(** * [_clean] *)

Lemma blank_squeeze b s : blank (squeeze b s) = blank s.
Proof.
  revert b. induction s as [|a s IH]; intros b; simpl; [reflexivity|].
  destruct (Char.is_space a) eqn:Ea; simpl.
  - destruct b; simpl; apply IH.
  - now rewrite Ea.
Qed.

(** [_clean] empties blank strings only. *)
Lemma clean_nonempty s : Str.nonempty (_clean s) = negb (blank s).
Proof. now rewrite clean_squeeze, strip_blank, blank_squeeze. Qed.

Lemma squeeze_lower b s : squeeze b (Str.lower s) = Str.lower (squeeze b s).
Proof.
  revert b. induction s as [|a s IH]; intros b; simpl; [reflexivity|].
  rewrite is_space_lower. destruct (Char.is_space a).
  - destruct b; simpl; now rewrite IH.
  - simpl. now rewrite IH.
Qed.

Lemma clean_lower s : _clean (Str.lower s) = Str.lower (_clean s).
Proof. now rewrite !clean_squeeze, squeeze_lower, strip_lower. Qed.

Lemma squeezed_weaken s : squeezed true s = true -> squeezed false s = true.
Proof.
  destruct s as [|a s]; simpl; [auto|].
  destruct (Char.is_space a); [|auto].
  rewrite andb_false_r. discriminate.
Qed.

Lemma squeezed_squeeze b s : squeezed b (squeeze b s) = true.
Proof.
  revert b. induction s as [|a s IH]; intros b; simpl; [reflexivity|].
  destruct (Char.is_space a) eqn:Ea.
  - destruct b; [apply IH|]. simpl. apply IH.
  - simpl. rewrite Ea. apply IH.
Qed.

Lemma squeeze_squeezed b s : squeezed b s = true -> squeeze b s = s.
Proof.
  revert b. induction s as [|a s IH]; intros b; simpl; [reflexivity|].
  destruct (Char.is_space a) eqn:Ea.
  - intros H. apply andb_true_iff in H. destruct H as [H Hs].
    apply andb_true_iff in H. destruct H as [Ha Hb].
    apply Ascii.eqb_eq in Ha. subst a.
    destruct b; [discriminate|]. now rewrite IH.
  - intros H. now rewrite IH.
Qed.

Lemma squeezed_lstrip s : squeezed false s = true -> squeezed false (Str.lstrip s) = true.
Proof.
  induction s as [|a s IH]; simpl; [auto|].
  destruct (Char.is_space a) eqn:Ea.
  - intros H. apply andb_true_iff in H. destruct H as [_ H].
    apply IH. now apply squeezed_weaken.
  - simpl. now rewrite Ea.
Qed.

Lemma squeezed_rstrip b s : squeezed b s = true -> squeezed b (Str.rstrip s) = true.
Proof.
  revert b. induction s as [|a s IH]; intros b; simpl; [auto|].
  destruct (Char.is_space a) eqn:Ea; simpl.
  - intros H. apply andb_true_iff in H. destruct H as [H Hs].
    destruct (Str.nonempty (Str.rstrip s)); simpl; [|reflexivity].
    rewrite Ea, H. simpl. now apply IH.
  - intros H. rewrite Ea. now apply IH.
Qed.

Lemma squeezed_strip s : squeezed false s = true -> squeezed false (Str.strip s) = true.
Proof. intros H. unfold Str.strip. now apply squeezed_lstrip, squeezed_rstrip. Qed.

(** [_clean] changes nothing in a string that it has produced. *)
Lemma clean_clean s : _clean (_clean s) = _clean s.
Proof.
  rewrite (clean_squeeze (_clean s)), (clean_squeeze s).
  rewrite squeeze_squeezed by apply squeezed_strip, squeezed_squeeze.
  apply strip_strip.
Qed.

(** Folding case and blanks twice is folding them once. *)
Lemma fold_fold s :
  Str.lower (_clean (Str.lower (_clean s))) = Str.lower (_clean s).
Proof. now rewrite clean_lower, clean_clean, lower_lower. Qed.

Lemma normalize_company_fold s :
  _normalize_company (Str.lower (_clean s)) = _normalize_company s.
Proof. unfold _normalize_company. now rewrite fold_fold. Qed.

Lemma take_nonempty n s : Str.nonempty (Str.take (S n) s) = Str.nonempty s.
Proof. destruct s; reflexivity. Qed.

(* ================================================================== *)
(** * Amounts: what is rendered can be read back *)

Lemma all_digits_uint d : all_digits (NilEmpty.string_of_uint d) = true.
Proof. induction d; simpl; auto. Qed.

Lemma decimal_digits n :
  all_digits (Float.decimal n) = true /\ Str.nonempty (Float.decimal n) = true.
Proof.
  unfold Float.decimal, NilZero.string_of_uint.
  destruct (N.to_uint (Z.to_N n)) as [|d|d|d|d|d|d|d|d|d|d]; simpl;
    rewrite ?all_digits_uint; auto.
Qed.

Lemma read_digits_digits s : all_digits s = true ->
  forall t acc frac seen,
  exists acc',
    Float.read_digits (s ++ t) acc frac seen =
    Float.read_digits t acc'
      (option_map (Nat.add (String.length s)) frac)
      (seen || Str.nonempty s)%bool.
Proof.
  induction s as [|a s IH]; intros Hs t acc frac seen.
  - exists acc. simpl. rewrite orb_false_r. now destruct frac.
  - simpl in Hs. apply andb_true_iff in Hs. destruct Hs as [Ha Hs].
    cbn [String.append Float.read_digits]. rewrite Ha.
    destruct (IH Hs t (10 * acc + Float.digit_value a)%Z (option_map S frac) true)
      as [acc' ->].
    exists acc'. cbn [Str.nonempty orb]. rewrite orb_true_r.
    f_equal. destruct frac; simpl; f_equal. lia.
Qed.

Lemma read_digits_rendered n :
  exists m k, Float.read_digits (Float.render_hundredths n) 0 None false = Some (m, k).
Proof.
  unfold Float.render_hundredths.
  destruct (decimal_digits (n / 100)) as [D1 N1].
  destruct (decimal_digits (n mod 100 / 10)) as [D2 _].
  destruct (decimal_digits (n mod 10)) as [D3 _].
  destruct (read_digits_digits _ D1
              ("." ++ Float.decimal (n mod 100 / 10) ++ Float.decimal (n mod 10))
              0%Z None false) as [a1 ->].
  rewrite N1. cbn [option_map orb String.append Float.read_digits].
  change (Char.is_digit ".") with false. cbn [Ascii.eqb Bool.eqb].
  change (Ascii.eqb "." ".") with true. cbv iota.
  destruct (read_digits_digits _ D2 (Float.decimal (n mod 10)) a1 (Some 0) true)
    as [a2 ->].
  replace (Float.decimal (n mod 10)) with (Float.decimal (n mod 10) ++ "")%string
    by (clear; induction (Float.decimal (n mod 10)); simpl; congruence).
  destruct (read_digits_digits _ D3 "" a2
              (option_map (Nat.add (String.length (Float.decimal (n mod 100 / 10))))
                 (Some 0)) (true || Str.nonempty (Float.decimal (n mod 100 / 10)))%bool)
    as [a3 ->].
  cbn [orb option_map Float.read_digits]. eauto.
Qed.

Lemma of_string_rendered n : exists x, Float.of_string (Float.render_hundredths n) = Some x.
Proof.
  unfold Float.of_string.
  destruct (String.eqb _ "inf"); [eauto|].
  destruct (String.eqb _ "nan"); [eauto|].
  destruct (read_digits_rendered n) as (m & k & ->). eauto.
Qed.

Lemma binary_round_aux_cases mx ex lx :
  let v := binary_round_aux Float.prec Float.emax false mx ex lx in
  v = S754_zero false \/ v = S754_infinity false \/ v = S754_nan \/
  exists m e, v = S754_finite false m e.
Proof.
  unfold binary_round_aux.
  destruct (shr_fexp _ _ mx ex lx) as [mrs' e'].
  destruct (shr_fexp _ _ _ e' loc_Exact) as [mrs'' e''].
  destruct (shr_m mrs''); [auto| |auto].
  destruct (Z.leb _ _); eauto 6.
Qed.

Lemma of_ratio_cases m d :
  let v := Float.of_ratio m d in
  v = S754_zero false \/ v = S754_infinity false \/ v = S754_nan \/
  exists m' e, v = S754_finite false m' e.
Proof.
  unfold Float.of_ratio.
  destruct m; [auto| |];
    destruct (SFdiv_core_binary _ _ _ _ _ _) as [[q e] l];
    apply binary_round_aux_cases.
Qed.

(** Whatever [float] reads, the two-decimal rendering of it reads back. *)
Lemma of_string_format2 s val :
  Float.of_string s = Some val ->
  exists x, Float.of_string (Float.format2 val) = Some x.
Proof.
  unfold Float.of_string at 1.
  destruct (String.eqb s "inf"); [intros [= <-]; vm_compute; eauto|].
  destruct (String.eqb s "nan"); [intros [= <-]; vm_compute; eauto|].
  destruct (Float.read_digits s 0 None false) as [[m k]|]; [|discriminate].
  intros [= <-].
  destruct (of_ratio_cases m (10 ^ Z.of_nat k)) as [->|[->|[->|(m' & e & ->)]]].
  - now exists (S754_zero false).
  - now exists (S754_infinity false).
  - now exists S754_nan.
  - unfold Float.format2. cbn [String.append]. apply of_string_rendered.
Qed.

(** Amount normalisation yields the empty string or a number. *)
Lemma amount_some s :
  Str.nonempty (_normalize_amount s) = true -> exists x, amount s = Some x.
Proof.
  unfold amount, _normalize_amount.
  destruct (negb (Str.nonempty s)); [discriminate|].
  destruct (Float.of_string _) as [val|] eqn:E; [|discriminate].
  intros _. eapply of_string_format2, E.
Qed.

Lemma amount_none s :
  Str.nonempty (_normalize_amount s) = false -> amount s = None.
Proof. unfold amount. intros H. apply nonempty_false in H. now rewrite H. Qed.

(* ================================================================== *)
(** * The matcher: every success goes through the continuation *)

Lemma rep_calls_cont (body : matcher) lo hi :
  (forall prev s c k x, body prev s c k = Some x ->
     exists p' s' c', k p' s' c' = Some x) ->
  forall fuel i prev s c k x,
    rep body lo hi fuel i prev s c k = Some x ->
    exists p' s' c', k p' s' c' = Some x.
Proof.
  intros Hbody. induction fuel as [|fuel IH]; intros i prev s c k x; cbn [rep].
  - destruct (Nat.leb lo i); [eauto|discriminate].
  - destruct (below i hi).
    + destruct (body prev s c _) as [y|] eqn:E.
      * intros [= ->]. apply Hbody in E. destruct E as (p' & s' & c' & E).
        now apply IH in E.
      * destruct (Nat.leb lo i); [eauto|discriminate].
    + destruct (Nat.leb lo i); [eauto|discriminate].
Qed.

Lemma rmatch_calls_cont r : forall prev s c k x,
  rmatch r prev s c k = Some x -> exists p' s' c', k p' s' c' = Some x.
Proof.
  induction r as [p|r1 IH1 r2 IH2|r1 IH1 r2 IH2|r IH lo hi|n r IH| | |];
    intros prev s c k x; cbn [rmatch].
  - destruct s as [|a s]; [discriminate|]. destruct (p a); [eauto|discriminate].
  - intros H. apply IH1 in H. destruct H as (p' & s' & c' & H). now apply IH2 in H.
  - destruct (rmatch r1 prev s c k) as [y|] eqn:E.
    + intros [= ->]. now apply IH1 in E.
    + apply IH2.
  - apply rep_calls_cont. exact IH.
  - intros H. apply IH in H. destruct H as (p' & s' & c' & H). eauto.
  - destruct (xorb _ _); [eauto|discriminate].
  - destruct prev as [a|]; [|eauto]. destruct (Ascii.eqb a _); [eauto|discriminate].
  - destruct s as [|a s]; [eauto|]. destruct (Ascii.eqb a _); [eauto|discriminate].
Qed.

Lemma search_from_some r : forall s pos prev m,
  search_from r pos prev s = Some m ->
  exists pos' prev' s', match_here r pos' prev' s' = Some m.
Proof.
  induction s as [|a s IH]; intros pos prev m; cbn [search_from].
  - destruct (match_here r pos prev "") eqn:E; [|discriminate].
    intros [= <-]. eauto.
  - destruct (match_here r pos prev (String a s)) eqn:E.
    + intros [= <-]. eauto.
    + apply IH.
Qed.

(** ** Identifier cores *)

Lemma all_digits_take_span s :
  all_digits (Str.take (span Char.is_digit s) s) = true.
Proof.
  induction s as [|a s IH]; simpl; [reflexivity|].
  destruct (Char.is_digit a) eqn:Ea; simpl; [|reflexivity].
  now rewrite Ea, IH.
Qed.

(** An identifier core is a run of six digits or more. *)
Lemma id_core_digits s v :
  id_core s = Some v -> all_digits v = true /\ 6 <= String.length v.
Proof.
  unfold id_core, search. destruct (search_from _ _ _ _) as [m|] eqn:E; [|discriminate].
  intros [= <-]. apply search_from_some in E.
  destruct E as (pos & prev & s0 & E). unfold match_here in E.
  destruct (rmatch _id_core_re prev s0 [] accept) as [[rest c]|] eqn:R; [|discriminate].
  injection E as <-.
  unfold _id_core_re in R. cbn [seq rmatch] in R.
  apply rmatch_calls_cont in R. destruct R as (p1 & s1 & c1 & R).
  unfold at_least, digit in R. rewrite rmatch_rep in R.
  rewrite (rep_chr_total _ _ _
             (fun s' c' => (s', (1, Str.take (String.length s1 - String.length s') s1) :: c')))
    in R by (reflexivity || lia).
  cbn [Nat.add] in R.
  destruct (Nat.leb 6 (span Char.is_digit s1)) eqn:L; [|discriminate].
  injection R as _ <-. apply Nat.leb_le in L.
  unfold group. cbn [groups lookup Nat.eqb].
  rewrite length_drop.
  pose proof (span_le Char.is_digit s1) as Hle.
  replace (String.length s1 - (String.length s1 - span Char.is_digit s1))
    with (span Char.is_digit s1) by lia.
  split; [apply all_digits_take_span|].
  now rewrite length_take.
Qed.

Lemma is_digit_not_space a : Char.is_digit a = true -> Char.is_space a = false.
Proof. destruct a as [[] [] [] [] [] [] [] []]; vm_compute; congruence. Qed.


(* ================================================================== *)
(** * The matcher: the fuel of a loop is enough *)

Lemma rep_ext (body : matcher) lo hi n :
  (forall prev s c k k', String.length s <= n ->
     agree_upto (String.length s) k k' -> body prev s c k = body prev s c k') ->
  forall fuel i prev s c k k',
    String.length s <= n ->
    agree_upto (String.length s) k k' ->
    rep body lo hi fuel i prev s c k = rep body lo hi fuel i prev s c k'.
Proof.
  intros Hbody. induction fuel as [|fuel IH]; intros i prev s c k k' Hn Hk; cbn [rep].
  - now rewrite (Hk prev s c (le_n _)).
  - rewrite (Hk prev s c (le_n _)).
    rewrite (Hbody prev s c _ (fun p' s' c' => rep body lo hi fuel (S i) p' s' c' k'));
      [reflexivity|assumption|].
    intros p' s' c' Hs'. apply IH; [lia|].
    intros p'' s'' c'' Hs''. apply Hk. lia.
Qed.

(** A match calls its continuation on what is left of the subject only. *)
Lemma rmatch_ext r : forall prev s c k k',
  agree_upto (String.length s) k k' ->
  rmatch r prev s c k = rmatch r prev s c k'.
Proof.
  induction r as [p|r1 IH1 r2 IH2|r1 IH1 r2 IH2|r IH lo hi|n r IH| | |];
    intros prev s c k k' Hk; cbn [rmatch].
  - destruct s as [|a s]; [reflexivity|]. destruct (p a); [|reflexivity].
    apply Hk. simpl. lia.
  - apply IH1. intros p' s' c' Hs'. apply IH2.
    intros p'' s'' c'' Hs''. apply Hk. lia.
  - now rewrite (IH1 _ _ _ k k' Hk), (IH2 _ _ _ k k' Hk).
  - apply (rep_ext _ _ _ (String.length s)); [|lia|assumption].
    intros prev0 s0 c0 k0 k0' _ H0. now apply IH.
  - apply IH. intros p' s' c' Hs'. now apply Hk.
  - destruct (xorb _ _); [|reflexivity]. now apply Hk.
  - destruct prev as [a|]; [destruct (Ascii.eqb a _)|]; try reflexivity; now apply Hk.
  - destruct s as [|a s]; [|destruct (Ascii.eqb a _)]; try reflexivity; now apply Hk.
Qed.

(** A consuming pattern calls its continuation on a shorter subject. *)
Lemma rmatch_ext_shorter r : consuming r = true ->
  forall prev s c k k',
  (forall p s' c', String.length s' < String.length s -> k p s' c' = k' p s' c') ->
  rmatch r prev s c k = rmatch r prev s c k'.
Proof.
  induction r as [p|r1 IH1 r2 IH2|r1 IH1 r2 IH2|r IH lo hi|n r IH| | |];
    cbn [consuming]; intros Hr prev s c k k' Hk; cbn [rmatch]; try discriminate.
  - destruct s as [|a s]; [reflexivity|]. destruct (p a); [|reflexivity].
    apply Hk. simpl. lia.
  - destruct (consuming r1) eqn:E1.
    + apply IH1; [reflexivity|]. intros p' s' c' Hs'. apply rmatch_ext.
      intros p'' s'' c'' Hs''. apply Hk. lia.
    + apply rmatch_ext. intros p' s' c' Hs'. apply IH2; [assumption|].
      intros p'' s'' c'' Hs''. apply Hk. lia.
  - apply andb_true_iff in Hr. destruct Hr as [H1 H2].
    now rewrite (IH1 H1 _ _ _ k k' Hk), (IH2 H2 _ _ _ k k' Hk).
  - apply andb_true_iff in Hr. destruct Hr as [Hlo Hr]. apply Nat.leb_le in Hlo.
    remember (String.length s) as fuel eqn:Hfuel.
    destruct fuel as [|fuel]; cbn [rep].
    + replace (Nat.leb lo 0) with false by (symmetry; apply Nat.leb_gt; lia).
      reflexivity.
    + replace (Nat.leb lo 0) with false by (symmetry; apply Nat.leb_gt; lia).
      rewrite (IH Hr prev s c _ (fun p' s' c' => rep (rmatch r) lo hi fuel 1 p' s' c' k'));
        [reflexivity|].
      intros p' s' c' Hs'.
      apply (rep_ext _ _ _ (String.length s')).
      * intros prev0 s0 c0 k0 k0' _ H0. now apply rmatch_ext.
      * lia.
      * intros p'' s'' c'' Hs''. apply Hk. lia.
  - apply IH; [assumption|]. intros p' s' c' Hs'. now apply Hk.
Qed.

Lemma rmatch_none r prev s c : rmatch r prev s c (fun _ _ _ => None) = None.
Proof.
  destruct (rmatch r prev s c (fun _ _ _ => None)) as [x|] eqn:E; [|reflexivity].
  apply rmatch_calls_cont in E. destruct E as (p' & s' & c' & E). discriminate.
Qed.

(** More fuel than the length of the subject changes nothing in a loop over
    a consuming pattern. *)
Lemma rep_fuel_enough r lo hi : consuming r = true ->
  forall fuel s i prev c k,
    String.length s <= fuel ->
    rep (rmatch r) lo hi (S fuel) i prev s c k = rep (rmatch r) lo hi fuel i prev s c k.
Proof.
  intros Hr. induction fuel as [|fuel IH]; intros s i prev c k Hlen.
  - destruct s; simpl in Hlen; [|lia]. cbn [rep].
    destruct (below i hi); [|reflexivity].
    rewrite (rmatch_ext_shorter r Hr prev "" c _ (fun _ _ _ => None)), rmatch_none;
      [reflexivity|].
    intros p s' c' Hs'. simpl in Hs'. lia.
  - cbn [rep]. destruct (below i hi); [|reflexivity].
    rewrite (rmatch_ext_shorter r Hr prev s c _
               (fun p' s' c' => rep (rmatch r) lo hi fuel (S i) p' s' c' k));
      [reflexivity|].
    intros p s' c' Hs'. apply (IH s' (S i) p c' k). lia.
Qed.

(** The loop of [r{lo,hi}] never stops for want of fuel. *)
Lemma rep_fuel_any r lo hi : consuming r = true ->
  forall extra s prev c k,
    rep (rmatch r) lo hi (String.length s + extra) 0 prev s c k =
    rmatch (Rep r lo hi) prev s c k.
Proof.
  intros Hr. induction extra as [|extra IH]; intros s prev c k.
  - now rewrite Nat.add_0_r.
  - replace (String.length s + S extra) with (S (String.length s + extra)) by lia.
    rewrite rep_fuel_enough by (assumption || lia). apply IH.
Qed.

(** In every pattern of the module the loops are over consuming patterns. *)
Lemma patterns_loops_consume : forallb loops_consume patterns = true.
Proof. reflexivity. Qed.

(* ================================================================== *)
(** * What [float] is given to read *)

Lemma match_here_plus_chr q pos prev s :
  match_here (plus (Chr q)) pos prev s =
  match span q s with
  | O => None
  | S n => Some (Mtch pos (Str.take (S n) s) [])
  end.
Proof.
  unfold match_here, plus.
  rewrite rmatch_rep,
    (rep_chr_total _ _ accept (fun s c => (s, c))) by (reflexivity || lia).
  cbn [Nat.add].
  pose proof (span_le q s) as Hle.
  destruct (span q s) as [|n] eqn:E; cbn [Nat.leb]; [reflexivity|].
  rewrite length_drop.
  now replace (String.length s - (String.length s - S n)) with (S n) by lia.
Qed.

Lemma sub_plus_chr_empty q : forall s prev,
  sub_from (plus (Chr q)) "" prev 0 s = without q s /\
  sub_from (plus (Chr q)) "" prev (span q s) s = without q s.
Proof.
  induction s as [|a s IH]; intros prev; [split; reflexivity|].
  destruct (IH (Some a)) as [IH0 IH1].
  assert (H0 : sub_from (plus (Chr q)) "" prev 0 (String a s) = without q (String a s)).
  { cbn [sub_from]. rewrite match_here_plus_chr. cbn [span without].
    destruct (q a) eqn:Ea.
    - cbn [whole]. rewrite length_take by (pose proof (span_le q s); simpl; lia).
      rewrite IH1. reflexivity.
    - now rewrite IH0. }
  split; [exact H0|].
  cbn [span]. destruct (q a) eqn:Ea.
  - cbn [sub_from without]. rewrite Ea. apply IH1.
  - rewrite H0. reflexivity.
Qed.

(** In [_normalize_amount], [float] is given digits and points only. *)
Lemma amount_text_numeric s : all_chars amount_char (sub not_amount_re "" s) = true.
Proof.
  unfold sub, not_amount_re, none_of.
  rewrite (proj1 (sub_plus_chr_empty _ s None)).
  induction s as [|a s IH]; cbn [without all_chars]; [reflexivity|].
  destruct (Char.is_digit a || Ascii.eqb a ".")%bool eqn:Ea; cbn [negb]; [|exact IH].
  cbn [all_chars]. unfold amount_char at 1. now rewrite Ea.
Qed.

(* ================================================================== *)
(** * The end-to-end scenario and the identifier cores *)



Lemma id_core_prefixed : id_core "PO-000123456" = Some "000123456".
Proof. vm_compute. reflexivity. Qed.

Lemma id_core_bare : id_core "123456" = Some "123456".
Proof. vm_compute. reflexivity. Qed.

Lemma po_number_status_of_pair :
  field_status "po_number" "PO-000123456" "123456" = "mismatch".
Proof. vm_compute. reflexivity. Qed.

(** C2 (as amended): whenever the resolved [po_number] values are
    [PO-000123456] on the invoice and [123456] on the purchase order, the
    table has a [po_number] row and its status is [mismatch]: the identifier
    cores are [000123456] and [123456], and they are compared as strings. *)
Theorem po_number_pair_mismatch inv po inv_n po_n :
  _normalize_record inv = Ok inv_n ->
  _normalize_record po = Ok po_n ->
  _resolve inv "po_number" inv_n = "PO-000123456" ->
  _resolve po "po_number" po_n = "123456" ->
  exists rows n,
    compare_records inv po = Ok (rows, n) /\
    In (Row "po_number" "PO-000123456" "123456" "mismatch") rows /\
    (forall r, In r rows -> field r = "po_number" -> status r = "mismatch") /\
    id_core "PO-000123456" = Some "000123456" /\
    id_core "123456" = Some "123456".
Proof.
  intros Hi Hp Hiv Hpv.
  eexists _, _. split; [apply (compare_records_eq _ _ _ _ Hi Hp)|].
  split; [|split; [|split; [apply id_core_prefixed|apply id_core_bare]]].
  - apply in_rows. exists "po_number". split; [left; in_fields|].
    apply in_row_for. rewrite Hiv, Hpv. split; [left; discriminate|].
    now rewrite po_number_status_of_pair.
  - intros r Hr Hf. apply in_rows in Hr. destruct Hr as (f & _ & Hr).
    apply in_row_for in Hr. destruct Hr as [_ ->]. simpl in Hf. subst f.
    simpl. rewrite Hiv, Hpv. apply po_number_status_of_pair.
Qed.

Lemma po_number_pair_mismatch_witness :
  exists rows n,
    compare_records (Some [("po", Some "PO-000123456")])
                    (Some [("po", Some "123456")]) = Ok (rows, n) /\
    In (Row "po_number" "PO-000123456" "123456" "mismatch") rows /\
    (forall r, In r rows -> field r = "po_number" -> status r = "mismatch") /\
    id_core "PO-000123456" = Some "000123456" /\
    id_core "123456" = Some "123456".
Proof.
  apply (po_number_pair_mismatch
           (Some [("po", Some "PO-000123456")]) (Some [("po", Some "123456")])
           [("vendor", ""); ("date", ""); ("currency", ""); ("total", "");
            ("po_number", "PO-000123456")]
           [("vendor", ""); ("date", ""); ("currency", ""); ("total", "");
            ("po_number", "123456")]);
    vm_compute; reflexivity.
Defined.

(** The pair of values is not classified as a match. *)
Lemma po_number_pair_not_match :
  ~ (forall inv po inv_n po_n,
       _normalize_record inv = Ok inv_n ->
       _normalize_record po = Ok po_n ->
       _resolve inv "po_number" inv_n = "PO-000123456" ->
       _resolve po "po_number" po_n = "123456" ->
       exists rows n,
         compare_records inv po = Ok (rows, n) /\
         exists r, In r rows /\ field r = "po_number" /\ status r = "match").
Proof.
  intros H.
  destruct (H (Some [("po", Some "PO-000123456")]) (Some [("po", Some "123456")])
              [("vendor", ""); ("date", ""); ("currency", ""); ("total", "");
               ("po_number", "PO-000123456")]
              [("vendor", ""); ("date", ""); ("currency", ""); ("total", "");
               ("po_number", "123456")])
    as (rows & n & Hc & r & Hr & Hf & Hs); try (vm_compute; reflexivity).
  vm_compute in Hc. injection Hc as <- <-.
  simpl in Hr. destruct Hr as [<-|[<-|[]]]; simpl in *; discriminate.
Qed.

(* ================================================================== *)
(** * The record normaliser *)

(** C3: for every raw record, absent, empty, or holding strings and [None]s
    under any keys, [_normalize_record] raises no exception and returns a
    mapping whose keys are exactly the five canonical fields. *)
Theorem normalize_record_total (rec : raw_record) :
  exists c, _normalize_record rec = Ok c /\ Dict.keys c = FIELDS.
Proof. exact (normalize_record_ok rec). Qed.

Lemma normalize_unfold rec :
  record_is_empty rec = false ->
  _normalize_record rec = (result <- resolved_fields rec ;; fallbacks (raw_text rec) result).
Proof.
  intros H. unfold _normalize_record, resolved_fields. rewrite H.
  destruct (sanitize_vendor _); reflexivity.
Qed.

Lemma resolved_fields_ok rec :
  exists r, resolved_fields rec = Ok r /\ fields_ok r /\
    forall k, k <> "vendor" -> k <> "po_number" ->
      Dict.get k r = Dict.get k (apply_synonyms (lower_map rec) empty_result).
Proof.
  unfold resolved_fields.
  pose proof (apply_synonyms_fields (lower_map rec) _ fields_ok_empty) as H0.
  destruct (sanitize_vendor_touches _ H0) as (r1 & -> & Hr1 & Hf1); cbn [bind].
  destruct (sanitize_po_touches _ Hr1) as (r2 & -> & Hr2 & Hf2).
  exists r2. split; [reflexivity|]. split; [assumption|].
  intros k Hv Hp. now rewrite Hf2, Hf1.
Qed.

(** ** Canonical records given back to the normaliser *)

(** The normaliser can give a vendor that is a bare label, and it empties
    such a vendor when the record is given back to it. *)
Lemma label_vendor_not_kept :
  _normalize_record (Some [("_raw", Some "Seller: Vendor:")]) =
    Ok [("vendor", "Vendor:"); ("date", ""); ("currency", ""); ("total", "");
        ("po_number", "")] /\
  _normalize_record
    (as_raw [("vendor", "Vendor:"); ("date", ""); ("currency", "");
             ("total", ""); ("po_number", "")]) <>
    Ok [("vendor", "Vendor:"); ("date", ""); ("currency", ""); ("total", "");
        ("po_number", "")].
Proof. split; vm_compute; [reflexivity|discriminate]. Qed.

(** The name [po_number] is not among the synonyms of [po_number], unlike
    the names of the four other fields: an identifier held under that key
    is not read. *)
Example po_number_key_not_read :
  _normalize_record (Some [("po_number", Some "123456")]) =
    Ok [("vendor", ""); ("date", ""); ("currency", ""); ("total", "");
        ("po_number", "")].
Proof. reflexivity. Qed.

Lemma normalize_canonical_record (v d c t p : string) :
  _normalize_record
    (as_raw [("vendor", v); ("date", d); ("currency", c); ("total", t);
             ("po_number", p)]) =
  Ok [("vendor", if is_some (fullmatch label_re v) then "" else v);
      ("date", d); ("currency", c); ("total", t); ("po_number", "")].
Proof.
  unfold _normalize_record.
  change (record_is_empty _) with false. cbv iota.
  change (apply_synonyms _ _)
    with [("vendor", v); ("date", d); ("currency", c); ("total", t);
          ("po_number", "")].
  change (raw_text _) with "".
  unfold sanitize_vendor. change (Dict.item "vendor" _) with (Ok v). cbn [bind].
  destruct (Str.nonempty v) eqn:Ev.
  - destruct (is_some (fullmatch label_re v)); reflexivity.
  - apply nonempty_false in Ev. subst v. reflexivity.
Qed.

(** C4 (as amended): a canonical record presented as a raw record under the
    five canonical field names comes back with [date], [currency] and
    [total] unchanged, and with [vendor] unchanged unless it is a bare
    vendor/seller label, which is emptied. *)
Theorem normalize_canonical (v d c t p : string) :
  exists r,
    _normalize_record
      (as_raw [("vendor", v); ("date", d); ("currency", c); ("total", t);
               ("po_number", p)]) = Ok r /\
    Dict.get "vendor" r =
      Some (if is_some (fullmatch label_re v) then "" else v) /\
    Dict.get "date" r = Some d /\
    Dict.get "currency" r = Some c /\
    Dict.get "total" r = Some t.
Proof.
  eexists. split; [apply normalize_canonical_record|].
  repeat split.
Qed.

(** ** The date fallback *)

Lemma fallback_date_empty raw r :
  Dict.get "date" r = Some "" ->
  fallback_date raw r =
  Ok (match first_some (search _date_re raw) (search _month_re raw) with
      | Some m => Dict.set "date" (whole m) r
      | None => r
      end).
Proof.
  intros H. unfold fallback_date, Dict.item. rewrite H. cbn [bind]. simpl.
  destruct (first_some _ _); reflexivity.
Qed.

Lemma fallbacks_date raw r :
  fields_ok r -> Str.nonempty raw = true -> Dict.get "date" r = Some "" ->
  exists r', fallbacks raw r = Ok r' /\
    Dict.get "date" r' =
    Some (match first_some (search _date_re raw) (search _month_re raw) with
          | Some m => whole m
          | None => ""
          end).
Proof.
  intros Hr Hraw Hd. unfold fallbacks. rewrite Hraw.
  destruct (fallback_date_touches raw r Hr) as (r1 & E1 & Hr1 & _).
  rewrite E1. cbn [bind]. rewrite (fallback_date_empty raw r Hd) in E1.
  injection E1 as E1.
  destruct (fallback_po_touches raw r1 Hr1) as (r2 & -> & Hr2 & F2); cbn [bind].
  destruct (fallback_total_touches raw r2 Hr2) as (r3 & -> & Hr3 & F3); cbn [bind].
  destruct (fallback_currency_touches raw r3 Hr3) as (r4 & -> & Hr4 & F4); cbn [bind].
  destruct (fallback_vendor_touches raw r4 Hr4) as (r5 & -> & Hr5 & F5).
  exists r5. split; [reflexivity|].
  rewrite F5, F4, F3, F2 by discriminate. subst r1.
  destruct (first_some _ _); [apply dict_get_set_same|assumption].
Qed.

(** A month-name date that stands before a numeric date is not the date
    that the normaliser keeps. *)
Lemma date_not_first_in_document :
  ~ (forall rec m,
       record_is_empty rec = false ->
       Str.nonempty (raw_text rec) = true ->
       Dict.get "date" (apply_synonyms (lower_map rec) empty_result) = Some "" ->
       first_in_document (search _date_re (raw_text rec))
                         (search _month_re (raw_text rec)) = Some m ->
       exists c, _normalize_record rec = Ok c /\
                 Dict.get "date" c = Some (whole m)).
Proof.
  intros H.
  destruct (H (Some [("_raw", Some "Jan 5, 2024 and 01/02/2024")])
              (Mtch 0 "Jan 5, 2024" [(1, "Jan")]))
    as (c & Hc & Hd); try (vm_compute; reflexivity).
  vm_compute in Hc. injection Hc as <-. vm_compute in Hd. discriminate.
Qed.

(** C5 (as amended): when [date] is still empty after synonym resolution
    and the raw text is not empty, the normaliser sets [date] to the first
    match of the numeric pattern if the text has one, wherever a month-name
    date may stand, and otherwise to the first match of the month-name
    pattern; the matched text is kept as it is, with no check that it is a
    date of the calendar. *)
Theorem date_fallback_numeric_first (rec : raw_record) :
  record_is_empty rec = false ->
  Str.nonempty (raw_text rec) = true ->
  Dict.get "date" (apply_synonyms (lower_map rec) empty_result) = Some "" ->
  exists c,
    _normalize_record rec = Ok c /\
    (forall m, search _date_re (raw_text rec) = Some m ->
               Dict.get "date" c = Some (whole m)) /\
    (search _date_re (raw_text rec) = None ->
     forall m, search _month_re (raw_text rec) = Some m ->
               Dict.get "date" c = Some (whole m)).
Proof.
  intros Hne Hraw Hd.
  rewrite (normalize_unfold rec Hne).
  destruct (resolved_fields_ok rec) as (r & -> & Hr & Hf). cbn [bind].
  rewrite <- Hf in Hd by discriminate.
  destruct (fallbacks_date _ r Hr Hraw Hd) as (c & Hc & Hdate).
  exists c. split; [assumption|]. split.
  - intros m Hm. now rewrite Hm in Hdate.
  - intros Hnone m Hm. now rewrite Hnone, Hm in Hdate.
Qed.

Lemma date_fallback_numeric_first_witness :
  exists c,
    _normalize_record (Some [("_raw", Some "Jan 5, 2024 due 99/99/9999")]) = Ok c /\
    Dict.get "date" c = Some "99/99/9999".
Proof.
  destruct (date_fallback_numeric_first
              (Some [("_raw", Some "Jan 5, 2024 due 99/99/9999")])
              eq_refl eq_refl eq_refl) as (c & Hc & Hnum & _).
  exists c. split; [exact Hc|].
  apply (Hnum (Mtch 16 "99/99/9999" [(1, "99/99/9999")])).
  vm_compute. reflexivity.
Defined.

(** ** The vendor fallback on label lines *)

Lemma skipn_cons {A : Type} (x : A) t : forall idx l,
  skipn idx l = x :: t ->
  nth_error l idx = Some x /\ skipn (S idx) l = t /\
  List.length l = idx + S (List.length t).
Proof.
  induction idx as [|idx IH]; intros [|y l] H; simpl in *; try discriminate.
  - injection H as -> ->. auto.
  - destruct (IH l H) as (H1 & H2 & H3). repeat split; auto.
Qed.

(** The loop over the indexed lines finds what [following_line] describes. *)
Lemma next_line_loop_following lines : forall todo idx,
  skipn idx lines = todo ->
  next_line_loop lines idx todo =
  Ok (option_map (fun name => Str.take 64 (_clean name)) (following_line todo)).
Proof.
  induction todo as [|line todo IH]; intros idx Hskip; [reflexivity|].
  destruct (skipn_cons _ _ _ _ Hskip) as (Hnth & Hrest & Hlen).
  cbn [next_line_loop following_line].
  destruct todo as [|l' todo'].
  - replace (Nat.ltb (idx + 1) (List.length lines)) with false
      by (symmetry; apply Nat.ltb_ge; simpl in Hlen; lia).
    destruct (is_label_line line); reflexivity.
  - destruct (skipn_cons _ _ _ _ Hrest) as (Hnth' & _ & _).
    replace (Nat.ltb (idx + 1) (List.length lines)) with true
      by (symmetry; apply Nat.ltb_lt; simpl in Hlen; lia).
    unfold list_item. replace (idx + 1) with (S idx) by lia.
    rewrite Hnth'. cbn [bind].
    destruct (is_label_line line); cbn [andb].
    + destruct (Str.nonempty (Str.strip l')); [reflexivity|].
      now apply IH.
    + now apply IH.
Qed.

Lemma following_line_not_blank lines name :
  following_line lines = Some name -> blank name = false.
Proof.
  induction lines as [|l rest IH]; simpl; [discriminate|].
  destruct rest as [|l' rest']; [discriminate|].
  destruct (is_label_line l && Str.nonempty (Str.strip l'))%bool eqn:E; [|exact IH].
  intros [= <-]. apply andb_true_iff in E. destruct E as [_ E].
  rewrite strip_blank in E. rewrite blank_strip.
  now apply negb_true_iff in E.
Qed.

Lemma sanitize_vendor_empty r :
  Dict.get "vendor" r = Some "" -> sanitize_vendor r = Ok r.
Proof. intros H. unfold sanitize_vendor, Dict.item. now rewrite H. Qed.

Lemma fallback_vendor_next_line raw r name :
  Dict.get "vendor" r = Some "" ->
  search _seller_inline_re raw = None ->
  following_line (raw_lines raw) = Some name ->
  fallback_vendor raw r = Ok (Dict.set "vendor" (Str.take 64 (_clean name)) r).
Proof.
  intros Hv Hinline Hline. unfold fallback_vendor, Dict.item.
  rewrite Hv, Hinline. cbn [bind Str.nonempty negb]. rewrite Hv. cbn [bind Str.nonempty negb].
  fold (raw_lines raw).
  rewrite (next_line_loop_following (raw_lines raw) (raw_lines raw) 0 eq_refl).
  rewrite Hline. cbn [bind option_map].
  rewrite dict_get_set_same. cbn [bind].
  rewrite take_nonempty, clean_nonempty, (following_line_not_blank _ _ Hline).
  reflexivity.
Qed.

(** A label line followed by an empty line hands over no later line. *)
Lemma vendor_not_next_nonempty_line :
  ~ (forall rec name,
       record_is_empty rec = false ->
       Str.nonempty (raw_text rec) = true ->
       Dict.get "vendor" (apply_synonyms (lower_map rec) empty_result) = Some "" ->
       search _seller_inline_re (raw_text rec) = None ->
       next_nonempty_after_label (raw_lines (raw_text rec)) = Some name ->
       exists c, _normalize_record rec = Ok c /\
                 Dict.get "vendor" c = Some (Str.take 64 (_clean name))).
Proof.
  intros H.
  destruct (H (Some [("_raw", Some two_pages)]) "Acme Corp")
    as (c & Hc & Hv); try (vm_compute; reflexivity).
  vm_compute in Hc. injection Hc as <-. vm_compute in Hv. discriminate.
Qed.

(** C6 (as amended): when [vendor] is still empty after synonym resolution
    and the inline seller:/vendor: pattern does not match, the normaliser
    scans the right-trimmed lines of the raw text for the first one that
    starts with "seller:" or "vendor:" in any case and whose immediately
    following line is not empty once trimmed, and takes that following line,
    whitespace-collapsed and cut to 64 characters, as the vendor; a label
    line followed by an empty line, or by none, is passed over. *)
Theorem vendor_from_following_line (rec : raw_record) (name : string) :
  record_is_empty rec = false ->
  Str.nonempty (raw_text rec) = true ->
  Dict.get "vendor" (apply_synonyms (lower_map rec) empty_result) = Some "" ->
  search _seller_inline_re (raw_text rec) = None ->
  following_line (raw_lines (raw_text rec)) = Some name ->
  exists c, _normalize_record rec = Ok c /\
            Dict.get "vendor" c = Some (Str.take 64 (_clean name)).
Proof.
  intros Hne Hraw Hv Hinline Hline.
  unfold _normalize_record. rewrite Hne.
  pose proof (apply_synonyms_fields (lower_map rec) _ fields_ok_empty) as H0.
  rewrite (sanitize_vendor_empty _ Hv). cbn [bind].
  destruct (sanitize_po_touches _ H0) as (r2 & -> & Hr2 & F2); cbn [bind].
  rewrite <- F2 in Hv by discriminate.
  unfold fallbacks. rewrite Hraw.
  destruct (fallback_date_touches (raw_text rec) r2 Hr2) as (r3 & -> & Hr3 & F3); cbn [bind].
  destruct (fallback_po_touches (raw_text rec) r3 Hr3) as (r4 & -> & Hr4 & F4); cbn [bind].
  destruct (fallback_total_touches (raw_text rec) r4 Hr4) as (r5 & -> & Hr5 & F5); cbn [bind].
  destruct (fallback_currency_touches (raw_text rec) r5 Hr5) as (r6 & -> & Hr6 & F6); cbn [bind].
  rewrite <- F3, <- F4, <- F5, <- F6 in Hv by discriminate.
  rewrite (fallback_vendor_next_line _ r6 name Hv Hinline Hline).
  eexists. split; [reflexivity|]. apply dict_get_set_same.
Qed.

Lemma vendor_from_following_line_witness :
  exists c,
    _normalize_record
      (Some [("_raw", Some ("page1" ++ FF ++ "Seller:" ++ LF ++ "  Acme   Corp ")%string)])
    = Ok c /\
    Dict.get "vendor" c = Some "Acme Corp".
Proof.
  apply (vendor_from_following_line
           (Some [("_raw", Some ("page1" ++ FF ++ "Seller:" ++ LF ++ "  Acme   Corp ")%string)])
           "Acme   Corp");
    vm_compute; reflexivity.
Defined.

(* ================================================================== *)
(** * Resolved values and the status of a row *)





Lemma among_one f x : among f [x] = String.eqb f x.
Proof. unfold among. simpl. apply orb_false_r. Qed.

(** The status of a field, in the terms of the comparison rules. *)
Lemma field_status_eq f iv pv :
  field_status f iv pv =
  if String.eqb f "total" then
    if (Str.nonempty (_normalize_amount iv) && Str.nonempty (_normalize_amount pv))%bool
    then match amount iv, amount pv with
         | Some x, Some y => if within_tolerance x y then "match" else "mismatch"
         | _, _ => "mismatch"
         end
    else "missing"
  else
    let lv := if String.eqb f "vendor" then _normalize_company iv else fold_text iv in
    let rv := if String.eqb f "vendor" then _normalize_company pv else fold_text pv in
    if among f id_like_fields then
      match id_core iv, id_core pv with
      | Some a, Some b => if String.eqb a b then "match" else "mismatch"
      | _, _ => text_status lv rv
      end
    else text_status lv rv.
Proof.
  unfold field_status. rewrite !among_one.
  destruct (String.eqb f "total"); [reflexivity|].
  cbv zeta. unfold id_core.
  destruct (String.eqb f "vendor"); rewrite ?normalize_company_fold;
    destruct (among f id_like_fields); try reflexivity;
    destruct (search _id_core_re iv), (search _id_core_re pv); reflexivity.
Qed.






(** The status of a [total] row. *)
Lemma total_status_cases iv pv :
  ((amount iv = None \/ amount pv = None) /\ field_status "total" iv pv = "missing") \/
  (exists x y, amount iv = Some x /\ amount pv = Some y /\
     field_status "total" iv pv = if within_tolerance x y then "match" else "mismatch").
Proof.
  rewrite field_status_eq. cbn [String.eqb Ascii.eqb Bool.eqb andb].
  destruct (Str.nonempty (_normalize_amount iv)) eqn:Ei.
  - destruct (Str.nonempty (_normalize_amount pv)) eqn:Ep; cbn [andb].
    + right. destruct (amount_some _ Ei) as [x Hx], (amount_some _ Ep) as [y Hy].
      exists x, y. rewrite Hx, Hy. auto.
    + left. split; [right; now apply amount_none|reflexivity].
  - left. split; [left; now apply amount_none|reflexivity].
Qed.


(* ================================================================== *)
(** * The rows of the comparison *)

Lemma row_of_field inv pur inv_n po_n r :
  In r (flat_map (row_for inv pur inv_n po_n) (sorted (_candidate_fields inv pur))) ->
  (_resolve inv (field r) inv_n <> "" \/ _resolve pur (field r) po_n <> "") /\
  invoice r = _resolve inv (field r) inv_n /\
  po r = _resolve pur (field r) po_n /\
  status r = field_status (field r) (invoice r) (po r).
Proof.
  intros H. apply in_rows in H. destruct H as (f & _ & H).
  apply in_row_for in H. destruct H as [Hne ->]. simpl. auto.
Qed.

(** ** The row of the total *)

(** Totals that differ by less than a cent match; by a cent or more they
    need not: the subtraction is that of binary64. *)
Example total_within_tolerance :
  field_status "total" "100.00" "100.004" = "match" /\
  field_status "total" "100.00" "100.01" = "mismatch" /\
  field_status "total" "0.02" "0.01" = "mismatch" /\
  field_status "total" "0.03" "0.02" = "match".
Proof. vm_compute. auto. Qed.



(** ** The invariant of the rows *)




(** ** Vendors that are all legal suffix *)

Lemma vendor_status iv pv :
  field_status "vendor" iv pv =
  text_status (_normalize_company iv) (_normalize_company pv).
Proof. rewrite field_status_eq. reflexivity. Qed.

(** C10: if both resolved [vendor] values are non-empty and company-name
    normalisation reduces either of them to the empty string, the table has
    a [vendor] row and its status is [missing]. *)
Theorem vendor_suffix_only_missing inv po inv_n po_n :
  _normalize_record inv = Ok inv_n ->
  _normalize_record po = Ok po_n ->
  _resolve inv "vendor" inv_n <> "" ->
  _resolve po "vendor" po_n <> "" ->
  _normalize_company (_resolve inv "vendor" inv_n) = "" \/
  _normalize_company (_resolve po "vendor" po_n) = "" ->
  exists rows n,
    compare_records inv po = Ok (rows, n) /\
    In (Row "vendor" (_resolve inv "vendor" inv_n) (_resolve po "vendor" po_n)
          "missing") rows /\
    forall r, In r rows -> field r = "vendor" -> status r = "missing".
Proof.
  intros Hi Hp Hiv Hpv Hnc.
  assert (Hs : field_status "vendor" (_resolve inv "vendor" inv_n)
                 (_resolve po "vendor" po_n) = "missing").
  { rewrite vendor_status. unfold text_status.
    destruct Hnc as [-> | ->]; cbn [Str.nonempty andb negb orb];
      rewrite ?andb_false_r, ?orb_true_r; reflexivity. }
  eexists _, _. split; [apply (compare_records_eq _ _ _ _ Hi Hp)|]. split.
  - apply in_rows. exists "vendor". split; [left; in_fields|].
    apply in_row_for. split; [now left|]. now rewrite Hs.
  - intros r Hr Hf. apply row_of_field in Hr. destruct Hr as (_ & Ei & Ep & ->).
    now rewrite Hf, Ei, Ep, Hf.
Qed.

Lemma vendor_suffix_only_missing_witness :
  exists rows n,
    compare_records (Some [("vendor", Some "Inc.")]) (Some [("vendor", Some "Acme")])
    = Ok (rows, n) /\
    In (Row "vendor" "Inc." "Acme" "missing") rows /\
    forall r, In r rows -> field r = "vendor" -> status r = "missing".
Proof.
  apply (vendor_suffix_only_missing
           (Some [("vendor", Some "Inc.")]) (Some [("vendor", Some "Acme")])
           [("vendor", "Inc."); ("date", ""); ("currency", ""); ("total", "");
            ("po_number", "")]
           [("vendor", "Acme"); ("date", ""); ("currency", ""); ("total", "");
            ("po_number", "")]);
    try (vm_compute; reflexivity); try (vm_compute; discriminate).
  left. vm_compute. reflexivity.
Defined.

(* ================================================================== *)
(** * Candidate fields and resolution *)

Lemma dict_get_not_in_keys {V : Type} (d : Dict.t V) k :
  ~ In k (Dict.keys d) -> Dict.get k d = None.
Proof.
  induction d as [|[k' v'] d IH]; simpl; [reflexivity|].
  intros H. destruct (String.eqb_spec k' k); [tauto|]. apply IH. tauto.
Qed.

Lemma resolve_eq rec f n :
  _resolve rec f n =
  let c := Str.strip (match Dict.get f n with Some v => v | None => "" end) in
  if Str.nonempty c then c
  else match raw_value rec f with
       | Some v => sanitized f (Str.strip v)
       | None => ""
       end.
Proof.
  unfold _resolve, raw_value, sanitized, id_core. cbv zeta.
  destruct (Str.nonempty (Str.strip _)); [reflexivity|].
  destruct (if record_is_empty rec then None else _) as [v|]; [|reflexivity].
  destruct (Str.strip v) as [|a s]; [reflexivity|].
  cbn [Str.nonempty negb String.eqb].
  destruct (String.eqb f "vendor"); [reflexivity|].
  destruct (String.eqb f "po_number"); [|reflexivity].
  destruct (search _id_core_re (String a s)); reflexivity.
Qed.

(** The value of a key that is no canonical field, written as the
    comparator names it, resolves to the trimmed raw value. *)
Lemma resolve_extra_key rec k v n :
  fields_ok n -> ~ In k FIELDS ->
  Dict.get k (items rec) = Some (Some v) -> blank v = false ->
  _resolve rec k n = Str.strip v /\ Str.strip v <> "".
Proof.
  intros Hn Hk Hget Hv.
  assert (Hs : Str.nonempty (Str.strip v) = true) by now rewrite strip_blank, Hv.
  split; [|now apply nonempty_true].
  rewrite resolve_eq. cbv zeta.
  rewrite dict_get_not_in_keys by now rewrite Hn.
  change (Str.nonempty (Str.strip "")) with false. cbv iota.
  unfold raw_value.
  replace (record_is_empty rec) with false
    by (destruct rec as [[|]|]; simpl in *; congruence).
  rewrite Hget. unfold sanitized.
  destruct (String.eqb_spec (Str.strip v) ""); [now apply nonempty_true in Hs|].
  destruct (String.eqb_spec k "vendor"); [subst; exfalso; apply Hk; in_fields|].
  destruct (String.eqb_spec k "po_number"); [subst; exfalso; apply Hk; in_fields|].
  reflexivity.
Qed.

(** An extra key written in lower case with no blank around it, holding a
    value that is not blank, has a row with that value. *)
Lemma lower_case_key_has_row (inv pur : raw_record) (k v : string) :
  k = Str.lower (Str.strip k) -> k <> "" -> k <> "_raw" -> ~ In k FIELDS ->
  blank v = false ->
  Dict.get k (items inv) = Some (Some v) ->
  exists rows n, compare_records inv pur = Ok (rows, n) /\
    exists r, In r rows /\ field r = k /\ invoice r = Str.strip v.
Proof.
  intros Hk H0 Hraw Hcanon Hv Hget.
  destruct (compare_records_ok inv pur) as (inv_n & po_n & _ & Hfi & _ & Hfp & Hc).
  eexists _, _. split; [exact Hc|].
  destruct (resolve_extra_key inv k v inv_n Hfi Hcanon Hget Hv) as [E Hne].
  exists (Row k (_resolve inv k inv_n) (_resolve pur k po_n)
            (field_status k (_resolve inv k inv_n) (_resolve pur k po_n))).
  split; [|split; [reflexivity|exact E]].
  apply in_rows. exists k. split.
  - right; left. exists k, (Some v). split; [now apply dict_get_some_in|auto].
  - apply in_row_for. split; [left; now rewrite E|reflexivity].
Qed.

(** C9: the extra key [Notes], present in both records with different
    values, puts the name [notes] among the candidate fields, but the values
    are looked up under [notes] in records that hold them under [Notes]:
    the table has no row and no mismatch.  Written in lower case, the same
    key has its row. *)
Theorem capitalised_key_dropped :
  In "notes" (_candidate_fields (Some [("Notes", Some "net 30")])
                                (Some [("Notes", Some "net 60")])) /\
  compare_records (Some [("Notes", Some "net 30")])
                  (Some [("Notes", Some "net 60")]) = Ok ([], 0) /\
  compare_records (Some [("notes", Some "net 30")])
                  (Some [("notes", Some "net 60")]) =
    Ok ([Row "notes" "net 30" "net 60" "mismatch"], 1).
Proof. vm_compute. intuition. Qed.

(* ================================================================== *)
(** * The order of the rows *)

Lemma ascii_compare_refl a : Ascii.compare a a = Eq.
Proof. unfold Ascii.compare. apply N.compare_refl. Qed.

Lemma string_compare_refl s : String.compare s s = Eq.
Proof.
  induction s as [|a s IH]; simpl; [reflexivity|].
  now rewrite ascii_compare_refl.
Qed.

Lemma string_compare_lt_trans : forall a b c,
  String.compare a b = Lt -> String.compare b c = Lt -> String.compare a c = Lt.
Proof.
  induction a as [|x a IH]; intros [|y b] [|z c]; simpl; try congruence.
  unfold Ascii.compare.
  destruct (N.compare (N_of_ascii x) (N_of_ascii y)) eqn:E1; try discriminate;
    destruct (N.compare (N_of_ascii y) (N_of_ascii z)) eqn:E2; try discriminate;
    intros H1 H2.
  - apply N.compare_eq in E1, E2. rewrite E1, E2, N.compare_refl. now apply (IH b c).
  - apply N.compare_eq in E1. now rewrite E1, E2.
  - apply N.compare_eq in E2. now rewrite <- E2, E1.
  - apply N.compare_lt_iff in E1, E2.
    now rewrite (proj2 (N.compare_lt_iff _ _) (N.lt_trans _ _ _ E1 E2)).
Qed.

Lemma ltb_trans a b c :
  String.ltb a b = true -> String.ltb b c = true -> String.ltb a c = true.
Proof.
  unfold String.ltb.
  destruct (String.compare a b) eqn:E1; try discriminate.
  destruct (String.compare b c) eqn:E2; try discriminate.
  now rewrite (string_compare_lt_trans a b c E1 E2).
Qed.

Lemma ltb_irrefl a : String.ltb a a = false.
Proof. unfold String.ltb. now rewrite string_compare_refl. Qed.

Lemma ltb_of_leb a b : String.leb a b = true -> a <> b -> String.ltb a b = true.
Proof.
  unfold String.leb, String.ltb.
  destruct (String.compare a b) eqn:E; try discriminate; [|reflexivity].
  apply String.compare_eq_iff in E. congruence.
Qed.

Lemma ltb_of_not_leb a b : String.leb a b = false -> String.ltb b a = true.
Proof.
  unfold String.leb, String.ltb. rewrite (String.compare_antisym b a).
  destruct (String.compare a b); simpl; congruence.
Qed.

Lemma ltb_asym a b : String.ltb a b = true -> String.ltb b a = false.
Proof.
  intros H. destruct (String.ltb b a) eqn:E; [|reflexivity].
  now rewrite <- (ltb_irrefl a), <- (ltb_trans a b a H E).
Qed.

Lemma forallb_ltb_trans a b l :
  String.ltb a b = true -> forallb (String.ltb b) l = true ->
  forallb (String.ltb a) l = true.
Proof.
  intros Hab H. rewrite forallb_forall in *. intros x Hx.
  eapply ltb_trans; [exact Hab|]. now apply H.
Qed.

Lemma ascending_insert k : forall l,
  ascending l = true -> ~ In k l -> ascending (insert_sorted k l) = true.
Proof.
  induction l as [|x l IH]; intros Hl Hk; [reflexivity|].
  simpl in Hl. apply andb_true_iff in Hl. destruct Hl as [Hx Hl].
  cbn [insert_sorted]. destruct (String.leb k x) eqn:E.
  - assert (Hkx : String.ltb k x = true)
      by (apply ltb_of_leb; [assumption|]; intros ->; apply Hk; now left).
    cbn [ascending forallb]. rewrite Hkx, Hx, Hl.
    now rewrite (forallb_ltb_trans k x l Hkx Hx).
  - cbn [ascending]. rewrite IH; [|assumption|intros H; apply Hk; now right].
    rewrite andb_true_r. apply forallb_forall. intros y Hy.
    apply in_insert_sorted in Hy. destruct Hy as [->|Hy].
    + now apply ltb_of_not_leb.
    + rewrite forallb_forall in Hx. now apply Hx.
Qed.

Lemma ascending_sorted l : NoDup l -> ascending (sorted l) = true.
Proof.
  induction 1 as [|k l Hk Hl IH]; [reflexivity|].
  simpl. apply ascending_insert; [assumption|]. now rewrite in_sorted.
Qed.

Lemma ascending_filter p : forall l,
  ascending l = true -> ascending (filter p l) = true.
Proof.
  induction l as [|x l IH]; intros Hl; [reflexivity|].
  simpl in Hl. apply andb_true_iff in Hl. destruct Hl as [Hx Hl].
  simpl. destruct (p x); [|auto].
  cbn [ascending]. rewrite (IH Hl), andb_true_r.
  rewrite forallb_forall in *. intros y Hy. apply filter_In in Hy. now apply Hx.
Qed.

(** Two ascending lists with the same members are the same list. *)
Lemma ascending_ext : forall l1 l2,
  ascending l1 = true -> ascending l2 = true ->
  (forall x, In x l1 <-> In x l2) -> l1 = l2.
Proof.
  induction l1 as [|a l1 IH]; intros [|b l2] H1 H2 Hin.
  - reflexivity.
  - exfalso. apply (Hin b). now left.
  - exfalso. apply (Hin a). now left.
  - simpl in H1, H2. apply andb_true_iff in H1, H2.
    destruct H1 as [Ha H1], H2 as [Hb H2].
    rewrite forallb_forall in Ha, Hb.
    assert (a = b).
    { destruct (proj1 (Hin a) (or_introl eq_refl)) as [E|Ia]; [now symmetry|].
      destruct (proj2 (Hin b) (or_introl eq_refl)) as [E|Ib]; [assumption|].
      pose proof (ltb_asym _ _ (Hb a Ia)) as C. now rewrite (Ha b Ib) in C. }
    subst b. f_equal. apply IH; try assumption.
    intros x. split; intros Hx.
    + destruct (proj1 (Hin x) (or_intror Hx)) as [E|I]; [|assumption].
      rewrite <- E in Hx. pose proof (Ha a Hx) as C. now rewrite ltb_irrefl in C.
    + destruct (proj2 (Hin x) (or_intror Hx)) as [E|I]; [|assumption].
      rewrite <- E in Hx. pose proof (Hb a Hx) as C. now rewrite ltb_irrefl in C.
Qed.

Lemma nodup_set_add k keys : NoDup keys -> NoDup (set_add k keys).
Proof.
  intros H. unfold set_add. destruct (existsb (String.eqb k) keys) eqn:E; [assumption|].
  apply NoDup_app; [assumption|repeat constructor; simpl; tauto|].
  intros x Hx [E'|[]]. subst x.
  assert (C : existsb (String.eqb k) keys = true)
    by (apply existsb_exists; exists k; split; [assumption|apply String.eqb_refl]).
  congruence.
Qed.

Lemma nodup_add_record_keys rec : forall keys,
  NoDup keys -> NoDup (add_record_keys keys rec).
Proof.
  unfold add_record_keys. induction (items rec) as [|kv l IH]; intros keys H; simpl;
    [assumption|].
  apply IH. destruct (_ && _)%bool; [now apply nodup_set_add|assumption].
Qed.

Lemma nodup_candidate_fields inv pur : NoDup (_candidate_fields inv pur).
Proof.
  unfold _candidate_fields. do 2 apply nodup_add_record_keys.
  unfold FIELDS. repeat constructor; simpl; intuition discriminate.
Qed.

Lemma ascending_candidates inv pur :
  ascending (sorted (_candidate_fields inv pur)) = true.
Proof. apply ascending_sorted, nodup_candidate_fields. Qed.

Lemma fields_of_rows inv pur inv_n po_n fs :
  map field (flat_map (row_for inv pur inv_n po_n) fs) =
  filter (fun f => negb (negb (Str.nonempty (_resolve inv f inv_n))
                         && negb (Str.nonempty (_resolve pur f po_n)))) fs.
Proof.
  induction fs as [|f fs IH]; [reflexivity|].
  cbn [flat_map filter]. rewrite map_app, IH. unfold row_for at 1.
  destruct (negb _ && negb _)%bool; reflexivity.
Qed.

Lemma ascending_nodup l : ascending l = true -> NoDup l.
Proof.
  induction l as [|a l IH]; intros Hl; constructor;
    simpl in Hl; apply andb_true_iff in Hl; destruct Hl as [Ha Hl]; [|auto].
  intros Hin. rewrite forallb_forall in Ha.
  pose proof (Ha a Hin) as C. now rewrite ltb_irrefl in C.
Qed.

(** X1: the rows that [compare_records] returns come in strictly ascending
    order of their field names, so that no field has two rows. *)
Theorem rows_ascending (inv pur : raw_record) :
  exists rows n,
    compare_records inv pur = Ok (rows, n) /\
    ascending (map field rows) = true /\
    NoDup (map field rows).
Proof.
  destruct (compare_records_ok inv pur) as (inv_n & po_n & _ & _ & _ & _ & Hc).
  eexists _, _. split; [exact Hc|].
  rewrite fields_of_rows. split.
  - apply ascending_filter, ascending_candidates.
  - apply NoDup_filter, ascending_nodup, ascending_candidates.
Qed.

(** X2: the number that [compare_records] returns beside the table is the
    number of rows whose status is [mismatch]; it is zero exactly when no
    row is a mismatch, and never more than the number of rows. *)
Theorem mismatch_count (inv pur : raw_record) :
  exists rows n,
    compare_records inv pur = Ok (rows, n) /\
    n = List.length (filter (fun r => String.eqb (status r) "mismatch") rows) /\
    n <= List.length rows /\
    (n = 0 <-> forall r, In r rows -> status r <> "mismatch").
Proof.
  destruct (compare_records_ok inv pur) as (inv_n & po_n & _ & _ & _ & _ & Hc).
  eexists _, _. split; [exact Hc|]. unfold count_mismatch.
  set (rows := flat_map _ _). clearbody rows. clear.
  split; [reflexivity|]. split; [apply filter_length_le|].
  induction rows as [|r rows IH]; simpl; [intuition|].
  destruct (String.eqb_spec (status r) "mismatch") as [E|E]; simpl.
  - split; [discriminate|]. intros H. exfalso. exact (H r (or_introl eq_refl) E).
  - rewrite IH. split.
    + intros H r' [<-|Hr']; auto.
    + intros H r' Hr'. apply H. now right.
Qed.

(* ================================================================== *)
(** * The two documents change places *)

Lemma abs_binary_round s m e :
  SFabs (binary_round Float.prec Float.emax s m e) =
  SFabs (binary_round Float.prec Float.emax false m e).
Proof.
  unfold binary_round. destruct (shl_align m e _) as [mz ez].
  unfold binary_round_aux.
  destruct (shr_fexp _ _ (Z.pos mz) ez loc_Exact) as [mrs' e'].
  destruct (shr_fexp _ _ _ e' loc_Exact) as [mrs'' e''].
  destruct (shr_m mrs''); [reflexivity| |reflexivity].
  destruct (Z.leb _ _); reflexivity.
Qed.

Lemma abs_binary_normalize_opp z e :
  SFabs (binary_normalize Float.prec Float.emax (- z) e false) =
  SFabs (binary_normalize Float.prec Float.emax z e false).
Proof.
  destruct z as [|p|p]; cbn [Z.opp binary_normalize]; [reflexivity| |];
    now rewrite (abs_binary_round true).
Qed.

(** [abs(x - y)] is [abs(y - x)], for floats as for numbers. *)
Lemma abs_sub_sym x y : Float.abs (Float.sub x y) = Float.abs (Float.sub y x).
Proof.
  unfold Float.abs, Float.sub.
  destruct x as [sx|sx| |sx mx ex], y as [sy|sy| |sy my ey];
    try reflexivity; try (destruct sx, sy; reflexivity).
  cbn [SFsub]. rewrite (Z.min_comm ey ex).
  set (ez := Z.min ex ey).
  set (a := cond_Zopp sx (Z.pos (fst (shl_align mx ex ez)))).
  set (b := cond_Zopp sy (Z.pos (fst (shl_align my ey ez)))).
  replace (b - a)%Z with (- (a - b))%Z by lia.
  symmetry. apply abs_binary_normalize_opp.
Qed.

Lemma within_tolerance_sym x y : within_tolerance x y = within_tolerance y x.
Proof. unfold within_tolerance. now rewrite abs_sub_sym. Qed.

Lemma text_status_sym lv rv : text_status lv rv = text_status rv lv.
Proof.
  unfold text_status. rewrite (String.eqb_sym lv rv).
  destruct (Str.nonempty lv), (Str.nonempty rv); reflexivity.
Qed.

(** The status of a field does not depend on which document is which. *)
Lemma field_status_sym f iv pv : field_status f iv pv = field_status f pv iv.
Proof.
  rewrite !field_status_eq. destruct (String.eqb f "total").
  - rewrite (andb_comm (Str.nonempty (_normalize_amount iv))).
    destruct (_ && _)%bool; [|reflexivity].
    destruct (amount iv) as [x|], (amount pv) as [y|]; try reflexivity.
    now rewrite within_tolerance_sym.
  - cbv zeta. rewrite (text_status_sym (if String.eqb f "vendor" then _ else _)).
    destruct (among f id_like_fields); [|reflexivity].
    destruct (id_core iv) as [a|], (id_core pv) as [b|]; try reflexivity.
    now rewrite (String.eqb_sym a b).
Qed.

Lemma sorted_candidates_sym inv pur :
  sorted (_candidate_fields pur inv) = sorted (_candidate_fields inv pur).
Proof.
  apply ascending_ext; try apply ascending_candidates.
  intros x. rewrite !in_sorted, !in_candidate_fields. tauto.
Qed.

Lemma row_for_sym inv pur inv_n po_n f :
  row_for pur inv po_n inv_n f = map swap_sides (row_for inv pur inv_n po_n f).
Proof.
  unfold row_for. rewrite (andb_comm (negb (Str.nonempty (_resolve pur f po_n)))).
  destruct (negb _ && negb _)%bool; [reflexivity|].
  cbn [map]. unfold swap_sides. cbn [field po invoice status].
  now rewrite field_status_sym.
Qed.

Lemma count_mismatch_swap rows :
  count_mismatch (map swap_sides rows) = count_mismatch rows.
Proof.
  unfold count_mismatch. induction rows as [|r rows IH]; [reflexivity|].
  cbn [map filter]. change (status (swap_sides r)) with (status r).
  destruct (String.eqb (status r) "mismatch"); simpl; now rewrite IH.
Qed.

(** X3: handing the two records to [compare_records] in the other order
    gives the same rows with the two value columns exchanged: the fields,
    their order, every status and the mismatch count are the same. *)
Theorem compare_records_swapped (inv pur : raw_record) :
  exists rows n,
    compare_records inv pur = Ok (rows, n) /\
    compare_records pur inv = Ok (map swap_sides rows, n).
Proof.
  destruct (compare_records_ok inv pur) as (inv_n & po_n & Hi & _ & Hp & _ & Hc).
  eexists _, _. split; [exact Hc|].
  rewrite (compare_records_eq pur inv po_n inv_n Hp Hi).
  rewrite sorted_candidates_sym.
  assert (E : forall fs,
            flat_map (row_for pur inv po_n inv_n) fs =
            map swap_sides (flat_map (row_for inv pur inv_n po_n) fs)).
  { induction fs as [|f fs IH]; [reflexivity|].
    cbn [flat_map]. now rewrite map_app, IH, row_for_sym. }
  now rewrite E, count_mismatch_swap.
Qed.

(* ================================================================== *)
(** * Amount normalisation *)

Lemma prefix_chars q : forall old s,
  String.prefix old s = true -> all_chars q old = true ->
  all_chars q (Str.take (String.length old) s) = true.
Proof.
  induction old as [|a old IH]; intros s Hp Hq; [reflexivity|].
  destruct s as [|b s]; [discriminate|]. simpl in Hp.
  destruct (ascii_dec a b) as [<-|]; [|discriminate].
  simpl in Hq. apply andb_true_iff in Hq. destruct Hq as [Ha Hq].
  cbn [String.length Str.take all_chars]. now rewrite Ha, IH.
Qed.

(** Taking out the occurrences of a word made of characters of class [q]
    changes nothing in what is left once all of class [q] is taken out. *)
Lemma without_replace_from q old : old <> "" -> all_chars q old = true ->
  forall s skip,
    all_chars q (Str.take skip s) = true ->
    without q (Str.replace_from old "" skip s) = without q s.
Proof.
  intros Hne Hq. induction s as [|a s IH]; intros skip Hskip; [reflexivity|].
  destruct skip as [|n].
  - cbn [Str.replace_from]. destruct (String.prefix old (String a s)) eqn:Hp.
    + pose proof (prefix_chars q old _ Hp Hq) as Ht.
      destruct old as [|a' old']; [congruence|].
      cbn [String.length Str.take all_chars] in Ht.
      apply andb_true_iff in Ht. destruct Ht as [Ha Ht].
      replace (String.length (String a' old') - 1) with (String.length old')
        by (simpl; lia).
      cbn [String.append without]. rewrite Ha. now apply IH.
    + cbn [without]. destruct (q a); now rewrite (IH 0).
  - cbn [Str.take all_chars] in Hskip.
    apply andb_true_iff in Hskip. destruct Hskip as [Ha Hn].
    cbn [Str.replace_from without]. rewrite Ha. now apply IH.
Qed.

Lemma without_replace q s old :
  old <> "" -> all_chars q old = true ->
  without q (Str.replace s old "") = without q s.
Proof. intros Hne Hq. now apply without_replace_from. Qed.

(** What [float] is given to read: the digits and points of the text. *)
Lemma amount_text s :
  sub not_amount_re ""
    (Str.replace (Str.replace (Str.replace s "," "") "USD" "") "usd" "") =
  digits_and_points s.
Proof.
  unfold sub, not_amount_re, none_of.
  rewrite (proj1 (sub_plus_chr_empty _ _ None)).
  unfold digits_and_points, amount_char.
  now rewrite !without_replace by (discriminate || reflexivity).
Qed.

Lemma normalize_amount_eq s :
  _normalize_amount s =
  if Str.nonempty s then
    match Float.of_string (digits_and_points s) with
    | Some val => Float.format2 val
    | None => ""
    end
  else "".
Proof.
  unfold _normalize_amount. destruct (Str.nonempty s); [|reflexivity].
  cbn [negb]. now rewrite amount_text.
Qed.

(** X4: amount normalisation reads the digits and the points of a text and
    nothing else: two non-empty texts that have the same digits and points,
    in the same order, normalise to the same amount, whatever currency
    signs, codes, separators, letters, blanks or minus signs they carry. *)
Theorem normalize_amount_digits_only (s t : string) :
  s <> "" -> t <> "" ->
  digits_and_points s = digits_and_points t ->
  _normalize_amount s = _normalize_amount t.
Proof.
  intros Hs Ht E. rewrite !normalize_amount_eq, E.
  apply nonempty_true in Hs, Ht. now rewrite Hs, Ht.
Qed.

Lemma normalize_amount_digits_only_witness :
  _normalize_amount "USD -1,200.5 approx" = _normalize_amount "1200.5" /\
  _normalize_amount "1200.5" = "1200.50".
Proof.
  split.
  - apply (normalize_amount_digits_only "USD -1,200.5 approx" "1200.5");
      (discriminate || reflexivity).
  - vm_compute. reflexivity.
Defined.

(** ** No sign and no not-a-number *)

Lemma read_digits_nonneg : forall s acc frac seen m k,
  (0 <= acc)%Z -> Float.read_digits s acc frac seen = Some (m, k) -> (0 <= m)%Z.
Proof.
  induction s as [|a s IH]; intros acc frac seen m k Hacc; cbn [Float.read_digits].
  - destruct seen; [|discriminate]. now intros [= <- _].
  - destruct (Char.is_digit a) eqn:Ea.
    + apply IH. unfold Float.digit_value, Char.is_digit, Char.in_range in *.
      apply andb_true_iff in Ea. destruct Ea as [Ea _]. apply N.leb_le in Ea. lia.
    + destruct (Ascii.eqb a "."); [|discriminate].
      destruct frac; [discriminate|]. now apply IH.
Qed.

Lemma iter_pos_invariant {A : Type} (P : A -> Prop) (f : A -> A) :
  (forall x, P x -> P (f x)) -> forall n x, P x -> P (iter_pos f n x).
Proof.
  intros Hf. induction n as [n IH|n IH|]; intros x Hx; cbn [iter_pos]; auto.
Qed.

Lemma shr_1_nonneg mrs : (0 <= shr_m mrs)%Z -> (0 <= shr_m (shr_1 mrs))%Z.
Proof.
  destruct mrs as [m r s]. cbn [shr_m]. intros H.
  destruct m as [|[p|p|]|p]; cbn [shr_1 shr_m]; lia.
Qed.

Lemma shr_fexp_nonneg m e l :
  (0 <= m)%Z -> (0 <= shr_m (fst (shr_fexp Float.prec Float.emax m e l)))%Z.
Proof.
  intros Hm. unfold shr_fexp, shr.
  assert (H0 : (0 <= shr_m (shr_record_of_loc m l))%Z)
    by (destruct l as [|[]]; exact Hm).
  destruct (_ - e)%Z; cbn [fst]; try exact H0.
  apply (iter_pos_invariant (fun mrs => 0 <= shr_m mrs)%Z);
    [exact shr_1_nonneg|exact H0].
Qed.

Lemma round_nearest_even_nonneg m l : (0 <= m)%Z -> (0 <= round_nearest_even m l)%Z.
Proof.
  intros H. unfold round_nearest_even.
  destruct l as [|[]]; try assumption; [destruct (Z.even m)|]; lia.
Qed.

Lemma binary_round_aux_nonneg mx ex lx : (0 <= mx)%Z ->
  let v := binary_round_aux Float.prec Float.emax false mx ex lx in
  v = S754_zero false \/ v = S754_infinity false \/
  exists m e, v = S754_finite false m e.
Proof.
  intros Hm. unfold binary_round_aux.
  pose proof (shr_fexp_nonneg mx ex lx Hm) as H1.
  destruct (shr_fexp _ _ mx ex lx) as [mrs' e']. cbn [fst] in H1.
  pose proof (shr_fexp_nonneg _ e' loc_Exact
                (round_nearest_even_nonneg _ (loc_of_shr_record mrs') H1)) as H2.
  destruct (shr_fexp _ _ _ e' loc_Exact) as [mrs'' e'']. cbn [fst] in H2.
  destruct (shr_m mrs''); [auto| |lia].
  destruct (Z.leb _ _); eauto.
Qed.

Lemma of_ratio_nonneg m d : (0 <= m)%Z -> (0 < d)%Z ->
  let v := Float.of_ratio m d in
  v = S754_zero false \/ v = S754_infinity false \/
  exists m' e, v = S754_finite false m' e.
Proof.
  intros Hm Hd. unfold Float.of_ratio. destruct m as [|p|p]; [auto| |lia].
  unfold SFdiv_core_binary.
  set (m' := match _ with Z.pos _ => Z.shiftl (Z.pos p) _ | Z0 => Z.pos p | Z.neg _ => Z0 end).
  assert (Hm' : (0 <= m')%Z).
  { subst m'. destruct (_ - _)%Z; try lia. apply Z.shiftl_nonneg. lia. }
  pose proof (Z.div_pos m' d Hm' Hd) as Hq. unfold Z.div in Hq.
  destruct (Z.div_eucl m' d) as [q r].
  now apply binary_round_aux_nonneg.
Qed.

(** What [float] reads in this program is zero, a positive number or
    infinity. *)
Lemma of_string_digits_nonneg s val :
  Float.of_string (digits_and_points s) = Some val ->
  val = S754_zero false \/ val = S754_infinity false \/
  exists m e, val = S754_finite false m e.
Proof.
  unfold Float.of_string.
  destruct (String.eqb_spec (digits_and_points s) "inf") as [E|_].
  { exfalso. pose proof (amount_text s) as H.
    pose proof (amount_text_numeric
                  (Str.replace (Str.replace (Str.replace s "," "") "USD" "") "usd" "")) as C.
    rewrite H, E in C. discriminate. }
  destruct (String.eqb_spec (digits_and_points s) "nan") as [E|_].
  { exfalso. pose proof (amount_text s) as H.
    pose proof (amount_text_numeric
                  (Str.replace (Str.replace (Str.replace s "," "") "USD" "") "usd" "")) as C.
    rewrite H, E in C. discriminate. }
  destruct (Float.read_digits _ 0 None false) as [[m k]|] eqn:R; [|discriminate].
  intros [= <-]. apply of_ratio_nonneg.
  - now apply (read_digits_nonneg _ _ _ _ _ _ (Z.le_refl 0) R).
  - apply Z.pow_pos_nonneg; lia.
Qed.

Lemma decimal_one_digit d : (0 <= d < 10)%Z ->
  all_digits (Float.decimal d) = true /\ String.length (Float.decimal d) = 1.
Proof.
  intros H.
  assert (C : (d = 0 \/ d = 1 \/ d = 2 \/ d = 3 \/ d = 4 \/ d = 5 \/ d = 6 \/
               d = 7 \/ d = 8 \/ d = 9)%Z) by lia.
  repeat (destruct C as [->|C]; [split; reflexivity|]). subst. split; reflexivity.
Qed.

Lemma all_digits_app s t :
  all_digits (s ++ t) = (all_digits s && all_digits t)%bool.
Proof.
  induction s as [|a s IH]; simpl; [reflexivity|]. now rewrite IH, andb_assoc.
Qed.

Lemma length_append s t :
  String.length (s ++ t) = String.length s + String.length t.
Proof. induction s as [|a s IH]; simpl; [reflexivity|]. now rewrite IH. Qed.

Lemma render_two_decimals n : two_decimals (Float.render_hundredths n).
Proof.
  unfold Float.render_hundredths.
  set (a := Z.div n 100). set (b := Z.div (Z.modulo n 100) 10).
  set (c := Z.modulo n 10).
  destruct (decimal_digits a) as [D1 N1].
  assert (Hb : (0 <= b < 10)%Z).
  { subst b. pose proof (Z.mod_pos_bound n 100 eq_refl) as B.
    split; [apply Z.div_pos; lia|apply Z.div_lt_upper_bound; lia]. }
  assert (Hc : (0 <= c < 10)%Z) by (apply Z.mod_pos_bound; reflexivity).
  destruct (decimal_one_digit b Hb) as [D2 L2].
  destruct (decimal_one_digit c Hc) as [D3 L3].
  exists (Float.decimal a), (Float.decimal b ++ Float.decimal c)%string.
  split; [reflexivity|]. split; [assumption|].
  split; [now apply nonempty_true|].
  rewrite all_digits_app, length_append, D2, D3, L2, L3. auto.
Qed.

(** X5: a normalised amount is the empty string, the word [inf] (the text
    was too large a number for a float), or digits, a point and exactly two
    digits: it carries no sign, no currency and no thousands separator. *)
Theorem normalize_amount_shape (text : string) :
  _normalize_amount text = "" \/ _normalize_amount text = "inf" \/
  two_decimals (_normalize_amount text).
Proof.
  rewrite normalize_amount_eq. destruct (Str.nonempty text); [|now left].
  destruct (Float.of_string (digits_and_points text)) as [val|] eqn:E; [|now left].
  apply of_string_digits_nonneg in E.
  destruct E as [->|[->|(m & e & ->)]].
  - right. right. exists "0", "00". repeat split; (reflexivity || discriminate).
  - right. now left.
  - right. right. unfold Float.format2. cbn [String.append].
    apply render_two_decimals.
Qed.

(* ================================================================== *)
(** * A record compared with itself *)

Lemma of_string_two_decimals r x :
  two_decimals r -> Float.of_string r = Some x ->
  x = S754_zero false \/ x = S754_infinity false \/
  exists m e, x = S754_finite false m e.
Proof.
  intros (ip & fp & -> & Dip & Nip & _ & _).
  destruct ip as [|a ip]; [congruence|].
  simpl in Dip. apply andb_true_iff in Dip. destruct Dip as [Da _].
  unfold Float.of_string.
  destruct (String.eqb_spec (String a ip ++ "." ++ fp) "inf") as [E|_];
    [injection E as -> _; discriminate|].
  destruct (String.eqb_spec (String a ip ++ "." ++ fp) "nan") as [E|_];
    [injection E as -> _; discriminate|].
  destruct (Float.read_digits _ 0 None false) as [[m k]|] eqn:R; [|discriminate].
  intros [= <-]. apply of_ratio_nonneg.
  - now apply (read_digits_nonneg _ _ _ _ _ _ (Z.le_refl 0) R).
  - apply Z.pow_pos_nonneg; lia.
Qed.

(** The number of an amount is never negative and never a not-a-number. *)
Lemma amount_nonneg s x :
  amount s = Some x ->
  x = S754_zero false \/ x = S754_infinity false \/
  exists m e, x = S754_finite false m e.
Proof.
  unfold amount.
  destruct (normalize_amount_shape s) as [->|[->|H]].
  - discriminate.
  - intros [= <-]. auto.
  - now apply of_string_two_decimals.
Qed.

Lemma within_tolerance_self x :
  x = S754_zero false \/ (exists m e, x = S754_finite false m e) ->
  within_tolerance x x = true.
Proof.
  intros [->|(m & e & ->)]; [reflexivity|].
  unfold within_tolerance, Float.sub. cbn [SFsub].
  now rewrite Z.sub_diag.
Qed.

Lemma text_status_self lv : text_status lv lv = "match" \/ text_status lv lv = "missing".
Proof.
  unfold text_status. rewrite String.eqb_refl.
  destruct (Str.nonempty lv); auto.
Qed.

Lemma field_status_self f v :
  field_status f v v = "match" \/ field_status f v v = "missing" \/
  (f = "total" /\ amount v = Some (S754_infinity false) /\
   field_status f v v = "mismatch").
Proof.
  destruct (String.eqb_spec f "total") as [->|Hf].
  - destruct (total_status_cases v v) as [[_ ->]|(x & y & Hx & Hy & ->)]; [auto|].
    rewrite Hx in Hy. injection Hy as <-.
    destruct (amount_nonneg v x Hx) as [->|[->|H]].
    + left. now rewrite within_tolerance_self by auto.
    + right. right. auto.
    + left. now rewrite within_tolerance_self by auto.
  - rewrite field_status_eq. apply String.eqb_neq in Hf. rewrite Hf. cbv zeta.
    assert (T := text_status_self
                   (if String.eqb f "vendor" then _normalize_company v else fold_text v)).
    destruct (among f id_like_fields); [|tauto].
    destruct (id_core v); [|tauto].
    rewrite String.eqb_refl. auto.
Qed.

(** X6: when a record is compared with itself, every row has the same value
    on both sides and no row is a mismatch, but for one case: a [total] so
    large that it reads as the float infinity, whose difference with itself
    is not a number. *)
Theorem compare_with_itself (rec : raw_record) :
  exists rows n,
    compare_records rec rec = Ok (rows, n) /\
    forall r, In r rows ->
      po r = invoice r /\
      (status r = "match" \/ status r = "missing" \/
       (field r = "total" /\ amount (invoice r) = Some (S754_infinity false) /\
        status r = "mismatch")).
Proof.
  destruct (compare_records_ok rec rec) as (n1 & n2 & H1 & _ & H2 & _ & Hc).
  rewrite H1 in H2. injection H2 as <-.
  eexists _, _. split; [exact Hc|].
  intros r Hr. apply row_of_field in Hr. destruct Hr as (_ & Ei & Ep & Es).
  rewrite <- Ei in Ep. split; [assumption|].
  rewrite Es, Ep. apply field_status_self.
Qed.

(** The case that the theorem leaves out does happen. *)
Example total_overflow :
  let big := "99999999999999999999999999999999999999999999999999999999999999999999999999999999999999999999999999999999999999999999999999999999999999999999999999999999999999999999999999999999999999999999999999999999999999999999999999999999999999999999999999999999999999999999999999999999999999999999999999999999999999999999999.00" in
  _normalize_amount big = "inf" /\ field_status "total" big big = "mismatch".
Proof. vm_compute. auto. Qed.

(* ================================================================== *)
(** * More on the record normaliser *)

(** ** What the structured fields gave is kept *)

Lemma step_keeps K (step : canon_record -> res canon_record) :
  touches_only K step ->
  (forall r v, Dict.get K r = Some v -> v <> "" -> step r = Ok r) ->
  forall r k v, fields_ok r -> Dict.get k r = Some v -> v <> "" ->
    exists r', step r = Ok r' /\ fields_ok r' /\ Dict.get k r' = Some v.
Proof.
  intros Ht Hk r k v Hr Hget Hv.
  destruct (String.eqb_spec k K) as [->|Hne].
  - exists r. split; [now apply (Hk r v)|auto].
  - destruct (Ht r Hr) as (r' & E & Hr' & F). exists r'.
    split; [assumption|]. split; [assumption|]. now rewrite F.
Qed.

Ltac guarded H Hv :=
  unfold Dict.item; rewrite H; cbn [bind];
  apply nonempty_true in Hv; rewrite Hv; reflexivity.

Lemma fallback_date_guard raw r v :
  Dict.get "date" r = Some v -> v <> "" -> fallback_date raw r = Ok r.
Proof. intros H Hv. unfold fallback_date. guarded H Hv. Qed.

Lemma fallback_po_guard raw r v :
  Dict.get "po_number" r = Some v -> v <> "" -> fallback_po raw r = Ok r.
Proof. intros H Hv. unfold fallback_po. guarded H Hv. Qed.

Lemma fallback_total_guard raw r v :
  Dict.get "total" r = Some v -> v <> "" -> fallback_total raw r = Ok r.
Proof. intros H Hv. unfold fallback_total. guarded H Hv. Qed.

Lemma fallback_currency_guard raw r v :
  Dict.get "currency" r = Some v -> v <> "" -> fallback_currency raw r = Ok r.
Proof. intros H Hv. unfold fallback_currency. guarded H Hv. Qed.

Lemma fallback_vendor_guard raw r v :
  Dict.get "vendor" r = Some v -> v <> "" -> fallback_vendor raw r = Ok r.
Proof. intros H Hv. unfold fallback_vendor. guarded H Hv. Qed.

Lemma fallbacks_keep raw r k v :
  fields_ok r -> Dict.get k r = Some v -> v <> "" ->
  exists c, fallbacks raw r = Ok c /\ Dict.get k c = Some v.
Proof.
  intros Hr Hget Hv. unfold fallbacks. destruct (Str.nonempty raw); [|eauto].
  destruct (step_keeps _ _ (fallback_date_touches raw) (fallback_date_guard raw)
              r k v Hr Hget Hv) as (r1 & -> & Hr1 & G1); cbn [bind].
  destruct (step_keeps _ _ (fallback_po_touches raw) (fallback_po_guard raw)
              r1 k v Hr1 G1 Hv) as (r2 & -> & Hr2 & G2); cbn [bind].
  destruct (step_keeps _ _ (fallback_total_touches raw) (fallback_total_guard raw)
              r2 k v Hr2 G2 Hv) as (r3 & -> & Hr3 & G3); cbn [bind].
  destruct (step_keeps _ _ (fallback_currency_touches raw) (fallback_currency_guard raw)
              r3 k v Hr3 G3 Hv) as (r4 & -> & Hr4 & G4); cbn [bind].
  destruct (step_keeps _ _ (fallback_vendor_touches raw) (fallback_vendor_guard raw)
              r4 k v Hr4 G4 Hv) as (r5 & -> & Hr5 & G5).
  eauto.
Qed.

(** X7: the regex fallbacks fill empty fields only: a field that came out
    of synonym resolution and the sanity checks with a non-empty value has
    that value in the canonical record, whatever the raw text holds. *)
Theorem fallback_keeps_resolved (rec : raw_record) (r : canon_record)
  (k v : string) :
  record_is_empty rec = false ->
  resolved_fields rec = Ok r ->
  Dict.get k r = Some v -> v <> "" ->
  exists c, _normalize_record rec = Ok c /\ Dict.get k c = Some v.
Proof.
  intros Hne Hres Hget Hv. rewrite (normalize_unfold rec Hne), Hres. cbn [bind].
  destruct (resolved_fields_ok rec) as (r' & E & Hr & _).
  rewrite Hres in E. injection E as <-.
  now apply fallbacks_keep.
Qed.

Lemma fallback_keeps_resolved_witness :
  exists c,
    _normalize_record
      (Some [("Invoice Date", Some "5 Jan"); ("_raw", Some "due 01/02/2024")]) = Ok c /\
    Dict.get "date" c = Some "5 Jan".
Proof.
  apply (fallback_keeps_resolved
           (Some [("Invoice Date", Some "5 Jan"); ("_raw", Some "due 01/02/2024")])
           [("vendor", ""); ("date", "5 Jan"); ("currency", ""); ("total", "");
            ("po_number", "")]);
    (reflexivity || discriminate).
Defined.

(** ** The writing of the keys *)

Lemma lower_map_same rec rec' :
  same_up_to_key_case rec rec' -> lower_map rec = lower_map rec'.
Proof.
  unfold same_up_to_key_case, lower_map.
  generalize (items rec) (items rec'). intros l l' H.
  generalize (@nil (string * string)).
  induction H as [|kv kv' l1 l2 [Hk Hv] _ IH]; intros acc; [reflexivity|].
  cbn [fold_left]. rewrite Hk, Hv. apply IH.
Qed.

(** X8: synonym resolution reads the keys of a raw record trimmed and in
    lower case: two records that hold the same values in the same order
    under keys that differ in case and surrounding blanks only, and that
    carry the same raw text, have the same canonical record. *)
Theorem normalize_key_case (rec rec' : raw_record) :
  same_up_to_key_case rec rec' ->
  raw_text rec = raw_text rec' ->
  _normalize_record rec = _normalize_record rec'.
Proof.
  intros Hsame Hraw. unfold _normalize_record.
  rewrite (lower_map_same rec rec' Hsame), Hraw.
  replace (record_is_empty rec') with (record_is_empty rec); [reflexivity|].
  unfold same_up_to_key_case in Hsame.
  destruct rec as [[|]|], rec' as [[|]|]; simpl in *; inversion Hsame; reflexivity.
Qed.

Lemma normalize_key_case_witness :
  _normalize_record (Some [("  SELLER ", Some "Acme"); ("Grand Total", Some "5.00")]) =
  _normalize_record (Some [("seller", Some "Acme"); ("grand total", Some "5.00")]).
Proof.
  apply normalize_key_case; [|reflexivity].
  repeat constructor.
Defined.

(** ** The length of a vendor found in the raw text *)

Lemma length_take_le n : forall s, String.length (Str.take n s) <= n.
Proof.
  induction n as [|n IH]; intros [|a s]; simpl; try lia.
  specialize (IH s). lia.
Qed.

Lemma next_line_loop_bound lines : forall todo idx name,
  next_line_loop lines idx todo = Ok (Some name) -> String.length name <= 64.
Proof.
  induction todo as [|line todo IH]; intros idx name; cbn [next_line_loop];
    [discriminate|].
  destruct (is_label_line line); [|apply IH].
  destruct (if Nat.ltb (idx + 1) (List.length lines) then _ else _) as [nm|e];
    cbn [bind]; [|discriminate].
  destruct (Str.nonempty nm); [|apply IH].
  intros E. replace name with (Str.take 64 (_clean nm)) by congruence.
  apply length_take_le.
Qed.

Ltac same_value H :=
  match type of H with
  | Some ?x = Some ?v =>
      let E := fresh in assert (E : v = x) by congruence; rewrite E
  end.

Ltac same_ok H :=
  match type of H with
  | Ok ?x = Ok ?y =>
      let E := fresh in assert (E : y = x) by congruence; subst y
  end.

Lemma fallback_vendor_bound raw r :
  fields_ok r -> Dict.get "vendor" r = Some "" ->
  exists r' v, fallback_vendor raw r = Ok r' /\ fields_ok r' /\
    Dict.get "vendor" r' = Some v /\ String.length v <= 64 /\
    forall k, k <> "vendor" -> Dict.get k r' = Dict.get k r.
Proof.
  intros Hr Hv.
  destruct (fallback_vendor_touches raw r Hr) as (r' & E & Hr' & F).
  destruct (dict_item_ok r' "vendor" Hr' ltac:(in_fields)) as (v & Gv & _).
  exists r', v. repeat split; try assumption.
  revert E. unfold fallback_vendor, Dict.item. rewrite Hv. cbn [bind Str.nonempty negb].
  set (r1 := match search _seller_inline_re raw with
             | Some m => Dict.set "vendor" _ r | None => r end).
  assert (H1 : exists v1, Dict.get "vendor" r1 = Some v1 /\ String.length v1 <= 64).
  { subst r1. destruct (search _seller_inline_re raw).
    - eexists. split; [apply dict_get_set_same|apply length_take_le].
    - exists "". split; [assumption|simpl; lia]. }
  destruct H1 as (v1 & G1 & L1). rewrite G1. cbn [bind].
  destruct (Str.nonempty v1) eqn:N1; cbn [negb bind].
  - rewrite G1. cbn [bind]. rewrite N1. cbn [negb].
    intros E; same_ok E. rewrite G1 in Gv. now same_value Gv.
  - destruct (next_line_loop (map Str.rstrip (Str.splitlines raw)) 0
                (map Str.rstrip (Str.splitlines raw))) as [found|e] eqn:L;
      cbn [bind]; [|discriminate].
    destruct found as [name|]; cbn [bind].
    + rewrite dict_get_set_same. cbn [bind].
      apply next_line_loop_bound in L.
      destruct (Str.nonempty name); cbn [negb].
      * intros E; same_ok E. rewrite dict_get_set_same in Gv. now same_value Gv.
      * destruct (search _vendor_re raw); intros E; same_ok E;
          rewrite dict_get_set_same in Gv; same_value Gv;
          [apply length_take_le|assumption].
    + rewrite G1. cbn [bind]. rewrite N1. cbn [negb].
      destruct (search _vendor_re raw); intros E; same_ok E.
      * rewrite dict_get_set_same in Gv. same_value Gv. apply length_take_le.
      * rewrite G1 in Gv. now same_value Gv.
Qed.

(** X9: a vendor that the normaliser takes from the raw text, on whichever
    of its three patterns, has at most 64 characters; a vendor that came
    from the structured fields is kept whole. *)
Theorem vendor_from_text_bounded (rec : raw_record) (r : canon_record) :
  record_is_empty rec = false ->
  resolved_fields rec = Ok r ->
  exists c v0 v,
    _normalize_record rec = Ok c /\
    Dict.get "vendor" r = Some v0 /\ Dict.get "vendor" c = Some v /\
    (v0 <> "" -> v = v0) /\
    (v0 = "" -> String.length v <= 64).
Proof.
  intros Hne Hres.
  destruct (resolved_fields_ok rec) as (r' & E & Hr & _).
  rewrite Hres in E. injection E as <-.
  destruct (dict_item_ok r "vendor" Hr ltac:(in_fields)) as (v0 & G0 & _).
  destruct (String.eqb_spec v0 "") as [->|Hv0].
  - rewrite (normalize_unfold rec Hne), Hres. cbn [bind]. unfold fallbacks.
    destruct (Str.nonempty (raw_text rec)).
    + destruct (fallback_date_touches (raw_text rec) r Hr) as (r1 & -> & Hr1 & F1); cbn [bind].
      destruct (fallback_po_touches (raw_text rec) r1 Hr1) as (r2 & -> & Hr2 & F2); cbn [bind].
      destruct (fallback_total_touches (raw_text rec) r2 Hr2) as (r3 & -> & Hr3 & F3); cbn [bind].
      destruct (fallback_currency_touches (raw_text rec) r3 Hr3) as (r4 & -> & Hr4 & F4); cbn [bind].
      assert (G4 : Dict.get "vendor" r4 = Some "")
        by (rewrite F4, F3, F2, F1 by discriminate; assumption).
      destruct (fallback_vendor_bound (raw_text rec) r4 Hr4 G4)
        as (r5 & v & -> & _ & G5 & L5 & _).
      exists r5, "", v. repeat split; try assumption; try congruence; auto.
    + exists r, "", "". repeat split; try assumption; try congruence; simpl; lia.
  - destruct (fallback_keeps_resolved rec r "vendor" v0 Hne Hres G0 Hv0) as (c & Hc & Gc).
    exists c, v0, v0. repeat split; try assumption; try congruence; auto.
Qed.

Lemma vendor_from_text_bounded_witness :
  exists c v0 v,
    _normalize_record
      (Some [("_raw", Some "Vendor: A very long company name that goes on and on and on and on and on")])
    = Ok c /\
    Dict.get "vendor" [("vendor", ""); ("date", ""); ("currency", ""); ("total", "");
                       ("po_number", "")] = Some v0 /\
    Dict.get "vendor" c = Some v /\
    (v0 <> "" -> v = v0) /\ (v0 = "" -> String.length v <= 64).
Proof.
  apply (vendor_from_text_bounded
           (Some [("_raw", Some "Vendor: A very long company name that goes on and on and on and on and on")]));
    reflexivity.
Defined.

(* ================================================================== *)
(** * Trimmed values and [_clean] *)

Lemma rstrip_no_blank s :
  all_chars (fun a => negb (Char.is_space a)) s = true -> Str.rstrip s = s.
Proof.
  induction s as [|a s IH]; simpl; [reflexivity|].
  intros H. apply andb_true_iff in H. destruct H as [Ha Hs].
  apply negb_true_iff in Ha. rewrite Ha, IH by assumption. reflexivity.
Qed.

Lemma strip_no_blank s :
  all_chars (fun a => negb (Char.is_space a)) s = true -> Str.strip s = s.
Proof.
  intros H. unfold Str.strip. rewrite rstrip_no_blank by assumption.
  destruct s as [|a s]; [reflexivity|]. simpl in *.
  apply andb_true_iff in H. destruct H as [Ha _].
  apply negb_true_iff in Ha. now rewrite Ha.
Qed.

Lemma all_digits_no_blank s :
  all_digits s = true -> all_chars (fun a => negb (Char.is_space a)) s = true.
Proof.
  induction s as [|a s IH]; simpl; [reflexivity|].
  intros H. apply andb_true_iff in H. destruct H as [Ha Hs].
  now rewrite (is_digit_not_space a Ha), IH.
Qed.

Lemma resolve_trimmed rec f n : Str.strip (_resolve rec f n) = _resolve rec f n.
Proof.
  unfold _resolve.
  destruct (Str.nonempty (Str.strip _)); [apply strip_strip|].
  destruct (if record_is_empty rec then None else _) as [v|]; [|reflexivity].
  destruct (negb (Str.nonempty (Str.strip v))); [reflexivity|].
  destruct (String.eqb f "vendor").
  { destruct (is_some _); [reflexivity|apply strip_strip]. }
  destruct (String.eqb f "po_number"); [|apply strip_strip].
  destruct (search _id_core_re (Str.strip v)) as [core|] eqn:E; [|reflexivity].
  apply strip_no_blank, all_digits_no_blank.
  apply (id_core_digits (Str.strip v)). unfold id_core. now rewrite E.
Qed.

(** X10: the two values that a row of [compare_records] shows have no
    blank at either end. *)
Theorem row_values_trimmed (inv pur : raw_record) :
  exists rows n,
    compare_records inv pur = Ok (rows, n) /\
    forall r, In r rows ->
      Str.strip (invoice r) = invoice r /\ Str.strip (po r) = po r.
Proof.
  destruct (compare_records_ok inv pur) as (inv_n & po_n & _ & _ & _ & _ & Hc).
  eexists _, _. split; [exact Hc|].
  intros r Hr. apply row_of_field in Hr. destruct Hr as (_ & -> & -> & _).
  split; apply resolve_trimmed.
Qed.

(** X11: [_clean] puts a text in a normal form: what it returns has no
    blank at either end and no blank but single spaces, is empty exactly
    when the text is made of blanks, and is left as it is by [_clean]; and
    [_clean] and [lower] may be applied in either order. *)
Theorem clean_normal_form (s : string) :
  _clean (_clean s) = _clean s /\
  Str.strip (_clean s) = _clean s /\
  squeezed false (_clean s) = true /\
  (_clean s = "" <-> blank s = true) /\
  _clean (Str.lower s) = Str.lower (_clean s).
Proof.
  split; [apply clean_clean|].
  split; [rewrite clean_squeeze; apply strip_strip|].
  split; [rewrite clean_squeeze; apply squeezed_strip, squeezed_squeeze|].
  split; [|apply clean_lower].
  rewrite <- nonempty_false, clean_nonempty. apply negb_false_iff.
Qed.

(* ================================================================== *)
(** * The sanity check of an identifier *)

Lemma append_assoc (a b c : string) : ((a ++ b) ++ c = a ++ (b ++ c))%string.
Proof. induction a as [|x a IH]; simpl; [reflexivity|]. now rewrite IH. Qed.

(** A loop over a character class that finds too few characters fails. *)
Lemma rep_chr_short p lo (k : cont) : forall fuel s i prev c,
  i + span p s < lo ->
  rep (rmatch (Chr p)) lo None fuel i prev s c k = None.
Proof.
  induction fuel as [|fuel IH]; intros s i prev c Hlt; cbn [rep below].
  - replace (Nat.leb lo i) with false by (symmetry; apply Nat.leb_gt; lia).
    reflexivity.
  - replace (Nat.leb lo i) with false by (symmetry; apply Nat.leb_gt; lia).
    destruct s as [|a s]; cbn [rmatch]; [reflexivity|].
    cbn [span] in Hlt. destruct (p a); [|reflexivity].
    rewrite IH by lia. reflexivity.
Qed.

Lemma rep_calls_cont_suffix (body : matcher) lo hi :
  (forall prev s c k x, body prev s c k = Some x ->
     exists p' s' c' pre, s = (pre ++ s')%string /\ k p' s' c' = Some x) ->
  forall fuel i prev s c k x,
    rep body lo hi fuel i prev s c k = Some x ->
    exists p' s' c' pre, s = (pre ++ s')%string /\ k p' s' c' = Some x.
Proof.
  intros Hbody. induction fuel as [|fuel IH]; intros i prev s c k x; cbn [rep].
  - destruct (Nat.leb lo i); [|discriminate]. intros H. now exists prev, s, c, "".
  - assert (L : (if Nat.leb lo i then k prev s c else None) = Some x ->
                exists p' s' c' pre, s = (pre ++ s')%string /\ k p' s' c' = Some x).
    { destruct (Nat.leb lo i); [|discriminate]. intros H. now exists prev, s, c, "". }
    destruct (below i hi); [|exact L].
    destruct (body prev s c _) as [y|] eqn:E; [|exact L].
    intros [= ->]. apply Hbody in E. destruct E as (p1 & s1 & c1 & pre1 & -> & E).
    apply IH in E. destruct E as (p2 & s2 & c2 & pre2 & -> & E).
    exists p2, s2, c2, (pre1 ++ pre2)%string. now rewrite append_assoc.
Qed.

(** A match calls its continuation on a suffix of the subject. *)
Lemma rmatch_calls_cont_suffix r : forall prev s c k x,
  rmatch r prev s c k = Some x ->
  exists p' s' c' pre, s = (pre ++ s')%string /\ k p' s' c' = Some x.
Proof.
  induction r as [p|r1 IH1 r2 IH2|r1 IH1 r2 IH2|r IH lo hi|n r IH| | |];
    intros prev s c k x; cbn [rmatch].
  - destruct s as [|a s]; [discriminate|]. destruct (p a); [|discriminate].
    intros H. now exists (Some a), s, c, (String a "").
  - intros H. apply IH1 in H. destruct H as (p1 & s1 & c1 & pre1 & -> & H).
    apply IH2 in H. destruct H as (p2 & s2 & c2 & pre2 & -> & H).
    exists p2, s2, c2, (pre1 ++ pre2)%string. now rewrite append_assoc.
  - destruct (rmatch r1 prev s c k) as [y|] eqn:E.
    + intros [= ->]. now apply IH1 in E.
    + apply IH2.
  - apply rep_calls_cont_suffix. exact IH.
  - intros H. apply IH in H. destruct H as (p1 & s1 & c1 & pre1 & -> & H). eauto 6.
  - destruct (xorb _ _); [|discriminate]. intros H. now exists prev, s, c, "".
  - destruct prev as [a|]; [destruct (Ascii.eqb a _); [|discriminate]|];
      intros H; [now exists (Some a), s, c, ""|now exists None, s, c, ""].
  - destruct s as [|a s]; [intros H; now exists prev, "", c, ""|].
    destruct (Ascii.eqb a _); [|discriminate].
    intros H. now exists prev, (String a s), c, "".
Qed.

Lemma search_from_found r : forall s pos prev m,
  search_from r pos prev s = Some m ->
  exists pre s' pos' prev', s = (pre ++ s')%string /\
                            match_here r pos' prev' s' = Some m.
Proof.
  induction s as [|a s IH]; intros pos prev m; cbn [search_from].
  - destruct (match_here r pos prev "") eqn:E; [|discriminate].
    intros [= <-]. now exists "", "", pos, prev.
  - destruct (match_here r pos prev (String a s)) eqn:E.
    + intros [= <-]. now exists "", (String a s), pos, prev.
    + intros H. apply IH in H. destruct H as (pre & s' & pos' & prev' & -> & H).
      now exists (String a pre), s', pos', prev'.
Qed.

(** A pattern that matches at a place, whatever stands before, is found by
    [search] in any text that has the place. *)
Lemma search_from_suffix r s1 :
  (forall pos prev, is_some (match_here r pos prev s1) = true) ->
  forall pre pos prev, is_some (search_from r pos prev (pre ++ s1)) = true.
Proof.
  intros H. induction pre as [|a pre IH]; intros pos prev.
  - cbn [String.append]. specialize (H pos prev).
    destruct s1; cbn [search_from]; destruct (match_here _ _ _ _); auto; discriminate.
  - cbn [String.append search_from]. destruct (match_here _ _ _ _); [reflexivity|].
    apply IH.
Qed.

Lemma rmatch_seq r1 r2 prev s c k :
  rmatch (Seq r1 r2) prev s c k =
  rmatch r1 prev s c (fun p' s' c' => rmatch r2 p' s' c' k).
Proof. reflexivity. Qed.

Lemma rmatch_grp n r prev s c k :
  rmatch (Grp n r) prev s c k =
  rmatch r prev s c
    (fun p' s' c' => k p' s' ((n, Str.take (String.length s - String.length s') s) :: c')).
Proof. reflexivity. Qed.

(** An optional part that cannot match is passed over. *)
Lemma rep_opt_fails (body : matcher) fuel prev s c (k : cont) :
  (forall k', body prev s c k' = None) ->
  rep body 0 (Some 1) fuel 0 prev s c k = k prev s c.
Proof.
  intros H. destruct fuel; cbn [rep below Nat.ltb Nat.leb]; [reflexivity|].
  now rewrite H.
Qed.

Lemma digit_not_upper a : Char.is_digit a = true -> Char.is_upper a = false.
Proof. destruct a as [[] [] [] [] [] [] [] []]; vm_compute; congruence. Qed.

(** The identifier pattern matches where six digits or more begin. *)
Lemma id_core_at_digits s1 pos prev :
  6 <= span Char.is_digit s1 ->
  is_some (match_here _id_core_re pos prev s1) = true.
Proof.
  intros H6. unfold match_here, _id_core_re, opt, at_least, upper, digit.
  cbn [seq]. rewrite rmatch_seq, rmatch_rep.
  assert (Hup : span Char.is_upper s1 = 0).
  { destruct s1 as [|a s1]; [reflexivity|]. cbn [span] in *.
    destruct (Char.is_digit a) eqn:Ea; [|lia]. now rewrite (digit_not_upper a Ea). }
  rewrite rep_opt_fails.
  2:{ intros k'. rewrite rmatch_seq, rmatch_rep. apply rep_chr_short. lia. }
  rewrite rmatch_grp, rmatch_rep.
  rewrite (rep_chr_total _ _ _
             (fun s' c' => (s', (1, Str.take (String.length s1 - String.length s') s1) :: c')))
    by (reflexivity || lia).
  cbn [Nat.add].
  replace (Nat.leb 6 (span Char.is_digit s1)) with true
    by (symmetry; apply Nat.leb_le; lia).
  reflexivity.
Qed.

Lemma id_core_found pre s1 :
  6 <= span Char.is_digit s1 -> is_some (search _id_core_re (pre ++ s1)) = true.
Proof.
  intros H. apply search_from_suffix. intros pos prev. now apply id_core_at_digits.
Qed.

(** Where [\d{n,}] matches, a run of [n] digits begins. *)
Lemma digits_run n pos prev s1 :
  is_some (match_here (at_least digit n) pos prev s1) = true ->
  n <= span Char.is_digit s1.
Proof.
  unfold match_here, at_least, digit.
  rewrite rmatch_rep, (rep_chr_total _ _ accept (fun s c => (s, c)))
    by (reflexivity || lia).
  cbn [Nat.add].
  destruct (Nat.leb n (span Char.is_digit s1)) eqn:L; [|discriminate].
  intros _. now apply Nat.leb_le.
Qed.

(** Where letters, a hyphen and [\d{6,}] match, a run of six digits begins
    further on. *)
Lemma prefixed_run q pos prev s0 :
  is_some (match_here (seq [at_least (Chr q) 2; chr "-"; at_least digit 6])
             pos prev s0) = true ->
  exists pre s2, s0 = (pre ++ s2)%string /\ 6 <= span Char.is_digit s2.
Proof.
  unfold match_here at 1. cbn [seq]. rewrite rmatch_seq.
  destruct (rmatch _ prev s0 [] _) as [x|] eqn:R; [|discriminate].
  intros _. apply rmatch_calls_cont_suffix in R.
  destruct R as (p1 & s1 & c1 & pre1 & -> & R).
  rewrite rmatch_seq in R.
  destruct s1 as [|a s2]; [discriminate|].
  unfold chr at 1 in R. cbn [rmatch] in R.
  destruct (Ascii.eqb "-" a); [|discriminate].
  exists (pre1 ++ String a "")%string, s2. split.
  - now rewrite append_assoc.
  - apply (digits_run 6 0 (Some a)). unfold match_here.
    destruct (rmatch (at_least digit 6) (Some a) s2 c1 accept) as [[rest c]|] eqn:R2;
      [|discriminate].
    unfold at_least, digit in *. rewrite rmatch_rep in *.
    rewrite (rep_chr_total _ _ accept (fun s c => (s, c))) in R2 |- *
      by (reflexivity || lia).
    destruct (Nat.leb 6 _); [reflexivity|discriminate].
Qed.

Lemma long_digits_have_core v :
  is_some (search long_digits_re v) = true -> is_some (search _id_core_re v) = true.
Proof.
  unfold search at 1. destruct (search_from long_digits_re 0 None v) as [m|] eqn:E;
    [|discriminate].
  intros _. apply search_from_found in E.
  destruct E as (pre & s1 & pos & prev & -> & E).
  apply id_core_found.
  assert (H : 8 <= span Char.is_digit s1).
  { apply (digits_run 8 pos prev). unfold long_digits_re in E. now rewrite E. }
  lia.
Qed.

Lemma prefixed_id_has_core v :
  is_some (search prefixed_id_re v) = true -> is_some (search _id_core_re v) = true.
Proof.
  unfold search at 1. destruct (search_from prefixed_id_re 0 None v) as [m|] eqn:E;
    [|discriminate].
  intros _. apply search_from_found in E.
  destruct E as (pre & s0 & pos & prev & -> & E).
  destruct (prefixed_run (fun a => (Char.is_upper a || Char.is_lower a)%bool)
              pos prev s0) as (pre1 & s2 & -> & H6).
  { unfold prefixed_id_re, letter in E. now rewrite E. }
  rewrite <- append_assoc. now apply id_core_found.
Qed.

(** The three tests of the sanity check come down to the first. *)
Lemma id_check_eq v :
  (is_some (search _id_core_re v) || is_some (search prefixed_id_re v)
   || is_some (search long_digits_re v))%bool = is_some (id_core v).
Proof.
  unfold id_core.
  destruct (search _id_core_re v) eqn:E; [reflexivity|].
  cbn [is_some option_map orb].
  destruct (is_some (search prefixed_id_re v)) eqn:E1.
  { apply prefixed_id_has_core in E1. rewrite E in E1. discriminate. }
  destruct (is_some (search long_digits_re v)) eqn:E2; [|reflexivity].
  apply long_digits_have_core in E2. rewrite E in E2. discriminate.
Qed.

(** X12: where there is no raw text to fall back on, the [po_number] of a
    canonical record is empty or holds, once trimmed, a run of six digits or
    more: of the three tests of the sanity check the second and the third
    accept nothing that the first does not. *)
Theorem po_number_has_six_digits (rec : raw_record) (c : canon_record) (p : string) :
  raw_text rec = "" ->
  _normalize_record rec = Ok c ->
  Dict.get "po_number" c = Some p ->
  p = "" \/
  exists core, id_core (Str.strip p) = Some core /\
               all_digits core = true /\ 6 <= String.length core.
Proof.
  intros Hraw. unfold _normalize_record. destruct (record_is_empty rec).
  { intros [= <-] [= <-]. now left. }
  pose proof (apply_synonyms_fields (lower_map rec) _ fields_ok_empty) as H0.
  destruct (sanitize_vendor_touches _ H0) as (r1 & -> & Hr1 & _). cbn [bind].
  rewrite Hraw. unfold fallbacks. cbn [Str.nonempty].
  unfold sanitize_po, Dict.item.
  destruct (dict_item_ok r1 "po_number" Hr1 ltac:(in_fields)) as (p1 & G1 & _).
  rewrite G1. cbn [bind].
  destruct (Str.nonempty p1) eqn:N1.
  - rewrite id_check_eq.
    destruct (id_core (Str.strip p1)) as [core|] eqn:Ec; cbn [is_some negb].
    + intros [= <-] G. rewrite G1 in G. injection G as <-.
      right. exists core. split; [assumption|]. now apply (id_core_digits (Str.strip p1)).
    + intros [= <-] G. rewrite dict_get_set_same in G. injection G as <-. now left.
  - intros [= <-] G. rewrite G1 in G. injection G as <-.
    left. now apply nonempty_false.
Qed.

Lemma po_number_has_six_digits_witness :
  "PO-2024-000123" = "" \/
  exists core, id_core (Str.strip "PO-2024-000123") = Some core /\
               all_digits core = true /\ 6 <= String.length core.
Proof.
  apply (po_number_has_six_digits
           (Some [("Purchase Order", Some "PO-2024-000123"); ("po", None)])
           [("vendor", ""); ("date", ""); ("currency", ""); ("total", "");
            ("po_number", "PO-2024-000123")]);
    reflexivity.
Defined.

(* ================================================================== *)
(** * The normal form of a company name *)

Section Kept.
(** A property of characters that the space has. *)
Variable P : ascii -> bool.
Hypothesis P_space : P " "%char = true.

Lemma all_chars_sub_empty r : forall s prev skip,
  all_chars P s = true -> all_chars P (sub_from r "" prev skip s) = true.
Proof.
  induction s as [|a s IH]; intros prev skip H; [reflexivity|].
  cbn [all_chars] in H. apply andb_true_iff in H. destruct H as [Ha Hs].
  cbn [sub_from]. destruct skip as [|n]; [|now apply IH].
  destruct (match_here r 0 prev (String a s)) as [m|].
  - destruct (String.length (whole m)); cbn [String.append all_chars].
    + now rewrite Ha, IH.
    + now apply IH.
  - cbn [all_chars]. now rewrite Ha, IH.
Qed.

Lemma all_chars_squeeze : forall s b,
  all_chars P s = true -> all_chars P (squeeze b s) = true.
Proof.
  induction s as [|a s IH]; intros b H; [reflexivity|].
  cbn [all_chars] in H. apply andb_true_iff in H. destruct H as [Ha Hs].
  cbn [squeeze]. destruct (Char.is_space a).
  - destruct b; [now apply IH|]. cbn [all_chars]. now rewrite P_space, IH.
  - cbn [all_chars]. now rewrite Ha, IH.
Qed.

Lemma all_chars_lstrip s : all_chars P s = true -> all_chars P (Str.lstrip s) = true.
Proof.
  induction s as [|a s IH]; intros H; [reflexivity|].
  cbn [Str.lstrip]. destruct (Char.is_space a); [|assumption].
  cbn [all_chars] in H. apply andb_true_iff in H. now apply IH.
Qed.

Lemma all_chars_rstrip s : all_chars P s = true -> all_chars P (Str.rstrip s) = true.
Proof.
  induction s as [|a s IH]; intros H; [reflexivity|].
  cbn [all_chars] in H. apply andb_true_iff in H. destruct H as [Ha Hs].
  cbn [Str.rstrip]. destruct (_ && _)%bool; [reflexivity|].
  cbn [all_chars]. now rewrite Ha, IH.
Qed.

Lemma all_chars_clean s : all_chars P s = true -> all_chars P (_clean s) = true.
Proof.
  intros H. rewrite clean_squeeze. unfold Str.strip.
  now apply all_chars_lstrip, all_chars_rstrip, all_chars_squeeze.
Qed.

End Kept.

Lemma all_chars_without_keeps P q s :
  all_chars P s = true -> all_chars P (without q s) = true.
Proof.
  induction s as [|a s IH]; intros H; [reflexivity|].
  cbn [all_chars] in H. apply andb_true_iff in H. destruct H as [Ha Hs].
  cbn [without]. destruct (q a); [now apply IH|].
  cbn [all_chars]. now rewrite Ha, IH.
Qed.

Lemma all_chars_without q s : all_chars (fun a => negb (q a)) (without q s) = true.
Proof.
  induction s as [|a s IH]; [reflexivity|].
  cbn [without]. destruct (q a) eqn:E; [assumption|].
  cbn [all_chars]. now rewrite E, IH.
Qed.

Lemma without_ext q q' s :
  (forall a, q a = q' a) -> without q s = without q' s.
Proof.
  intros H. induction s as [|a s IH]; [reflexivity|].
  cbn [without]. now rewrite H, IH.
Qed.

(** [re.sub] of a character class by nothing removes the characters of the
    class. *)
Lemma sub_chr_empty q : forall s prev, sub_from (Chr q) "" prev 0 s = without q s.
Proof.
  induction s as [|a s IH]; intros prev; [reflexivity|].
  cbn [sub_from without]. unfold match_here. cbn [rmatch].
  destruct (q a); [|now rewrite IH].
  unfold accept. cbn [whole String.length].
  replace (S (String.length s) - String.length s) with 1 by lia.
  cbn [Str.take String.length String.append]. apply IH.
Qed.

Lemma all_chars_lower s :
  all_chars (fun a => Ascii.eqb (Char.lower a) a) (Str.lower s) = true.
Proof.
  induction s as [|a s IH]; [reflexivity|].
  cbn [Str.lower all_chars]. fold (Str.lower s).
  now rewrite lower_lower_char, Ascii.eqb_refl, IH.
Qed.

Lemma lower_fixed s :
  all_chars (fun a => Ascii.eqb (Char.lower a) a) s = true -> Str.lower s = s.
Proof.
  induction s as [|a s IH]; intros H; [reflexivity|].
  cbn [all_chars] in H. apply andb_true_iff in H. destruct H as [Ha Hs].
  apply Ascii.eqb_eq in Ha. cbn [Str.lower]. fold (Str.lower s).
  now rewrite Ha, IH.
Qed.

Lemma normalize_company_keeps (P : ascii -> bool) name :
  P " "%char = true ->
  all_chars P (sub punct_re "" (Str.lower (_clean name))) = true ->
  all_chars P (_normalize_company name) = true.
Proof.
  intros Hsp H. unfold _normalize_company. fold (_clean (sub suffix_re ""
    (sub private_limited_re "" (sub punct_re "" (Str.lower (_clean name)))))).
  apply all_chars_clean; [assumption|].
  unfold sub at 1. apply all_chars_sub_empty.
  unfold sub at 1. now apply all_chars_sub_empty.
Qed.

(** X13: a company name comes out of [_normalize_company] in lower case,
    without a point or a comma, without a blank at either end and with no
    blank but single spaces. *)
Theorem normalize_company_normal_form (name : string) :
  Str.lower (_normalize_company name) = _normalize_company name /\
  all_chars (fun a => negb (punctuation a)) (_normalize_company name) = true /\
  Str.strip (_normalize_company name) = _normalize_company name /\
  squeezed false (_normalize_company name) = true.
Proof.
  assert (E : sub punct_re "" (Str.lower (_clean name))
              = without punctuation (Str.lower (_clean name))).
  { unfold sub, punct_re, one_of. rewrite sub_chr_empty.
    apply without_ext. intros a. unfold punctuation. cbn.
    now rewrite orb_false_r. }
  split; [|split; [|split]].
  - apply lower_fixed, normalize_company_keeps; [reflexivity|].
    rewrite E. apply all_chars_without_keeps, all_chars_lower.
  - apply normalize_company_keeps; [reflexivity|].
    rewrite E. apply all_chars_without.
  - unfold _normalize_company. apply strip_strip.
  - unfold _normalize_company. rewrite sub_spaces.
    apply squeezed_strip, squeezed_squeeze.
Qed.

(* ================================================================== *)
(** * [extract_fields] *)

Lemma count_app q a b : count q (a ++ b) = count q a + count q b.
Proof. induction a as [|x a IH]; simpl; [reflexivity|]. rewrite IH. lia. Qed.

Lemma span_le_count q s : span q s <= count q s.
Proof.
  induction s as [|a s IH]; simpl; [lia|]. destruct (q a); lia.
Qed.

(** [re.findall] of a character class finds each character of the class. *)
Lemma finditer_chr q : forall s pos prev,
  List.length (finditer_from (Chr q) pos prev 0 s) = count q s.
Proof.
  induction s as [|a s IH]; intros pos prev; [reflexivity|].
  cbn [finditer_from count]. unfold match_here. cbn [rmatch].
  destruct (q a); [|apply IH].
  unfold accept. cbn [whole String.length].
  replace (S (String.length s) - String.length s) with 1 by lia.
  cbn [Str.take String.length List.length]. now rewrite IH.
Qed.

Lemma count_digits_eq s : Ocr.count_digits s = count Char.is_digit s.
Proof. apply finditer_chr. Qed.

Lemma validated_has_six_digits v :
  is_some (search Ocr._id_validate_re v) = true -> 6 <= count Char.is_digit v.
Proof.
  unfold search. destruct (search_from _ 0 None v) as [m|] eqn:E; [|discriminate].
  intros _. apply search_from_found in E.
  destruct E as (pre & s0 & pos & prev & -> & E).
  rewrite count_app.
  enough (exists pre1 s2, s0 = (pre1 ++ s2)%string /\ 6 <= span Char.is_digit s2)
    as (pre1 & s2 & -> & H).
  { rewrite count_app. pose proof (span_le_count Char.is_digit s2). lia. }
  unfold match_here, Ocr._id_validate_re in E. cbn [rmatch] in E.
  destruct (rmatch (seq [at_least upper 2; chr "-"; at_least digit 6]) prev s0 [] accept)
    as [x|] eqn:R.
  - apply (prefixed_run Char.is_upper pos prev). unfold match_here, upper in *.
    rewrite R. now destruct x.
  - exists "", s0. split; [reflexivity|].
    assert (H : 8 <= span Char.is_digit s0).
    { apply (digits_run 8 pos prev). unfold match_here.
      destruct (rmatch (at_least digit 8) prev s0 [] accept) as [[]|]; [reflexivity|discriminate]. }
    lia.
Qed.

Lemma stripped_lines_nonempty text l :
  In l (Ocr.stripped_lines text) -> Str.nonempty l = true.
Proof.
  unfold Ocr.stripped_lines. rewrite in_map_iff. intros (l' & <- & H).
  apply filter_In in H. tauto.
Qed.

Ltac hide t := let x := fresh "x" in set (x := t) in *; clearbody x.

(** What [extract_fields] returns. *)
Lemma extract_fields_ok text :
  exists vendor date total currency po_number,
    Ocr.extract_fields text =
      Ok [("vendor", vendor); ("date", date); ("total", total);
          ("currency", currency); ("po_number", po_number)] /\
    (forall v, vendor = Some v -> v <> "" /\ String.length v <= 64) /\
    (forall p, po_number = Some p -> 6 <= count Char.is_digit p) /\
    (total = None <-> currency = None).
Proof.
  unfold Ocr.extract_fields.
  assert (Hv : forall l0 ls, Ocr.stripped_lines text = l0 :: ls ->
                 Str.take 64 l0 <> "" /\ String.length (Str.take 64 l0) <= 64).
  { intros l0 ls E. split; [|apply length_take_le].
    apply nonempty_true. rewrite take_nonempty.
    apply (stripped_lines_nonempty text). rewrite E. now left. }
  assert (Hp : forall v,
             (is_some (search Ocr._id_validate_re v)
              || Nat.leb 6 (Ocr.count_digits v))%bool = true ->
             6 <= count Char.is_digit v).
  { intros v H. apply orb_true_iff in H. destruct H as [H|H].
    - now apply validated_has_six_digits.
    - apply Nat.leb_le in H. now rewrite <- count_digits_eq. }
  destruct (Ocr.stripped_lines text) as [|l0 ls].
  - clear Hv.
    destruct (search Ocr._date_re text) as [md|];
      (destruct (search Ocr._invnum_re text) as [mi|];
       [hide (Str.strip (group 1 mi))
       |destruct (search Ocr._po_re text) as [mp|];
        [hide (Str.strip (group 1 mp))|]]);
      try (specialize (Hp x);
           destruct (is_some (search Ocr._id_validate_re x)
                     || Nat.leb 6 (Ocr.count_digits x))%bool);
      (destruct (Ocr.money_findall text) as [|m0 ms];
       [|destruct (list_last_cons m0 ms) as [y ->]]);
      cbn [bind FIELDS Ocr.FIELDS map Dict.set String.eqb Ascii.eqb Bool.eqb];
      eexists _, _, _, _, _; (split; [reflexivity|]);
      repeat split; try discriminate; intros; try congruence; auto;
      match goal with
      | H : Some _ = Some _ |- _ => injection H as <-; (now apply Hp) || tauto
      end.
  - specialize (Hv l0 ls eq_refl). cbn [bind list_item nth_error].
    hide (Str.take 64 l0).
    destruct (search Ocr._date_re text) as [md|];
      (destruct (search Ocr._invnum_re text) as [mi|];
       [hide (Str.strip (group 1 mi))
       |destruct (search Ocr._po_re text) as [mp|];
        [hide (Str.strip (group 1 mp))|]]);
      try (specialize (Hp x0);
           destruct (is_some (search Ocr._id_validate_re x0)
                     || Nat.leb 6 (Ocr.count_digits x0))%bool);
      (destruct (Ocr.money_findall text) as [|m0 ms];
       [|destruct (list_last_cons m0 ms) as [y ->]]);
      cbn [bind list_item nth_error FIELDS Ocr.FIELDS map Dict.set String.eqb
           Ascii.eqb Bool.eqb];
      eexists _, _, _, _, _; (split; [reflexivity|]);
      repeat split; try discriminate; intros; try congruence; auto;
      match goal with
      | H : Some _ = Some _ |- _ => injection H as <-; (now apply Hp) || tauto
      end.
Qed.

(** X14: with the refinement by OpenAI off, [extract_fields] raises on no
    text: it returns a dictionary with the five keys of [FIELDS], in that
    order; in it [currency] and [total] are found together or not at all. *)
Theorem extract_fields_keys (text : string) :
  exists d,
    Ocr.extract_fields text = Ok d /\
    Dict.keys d = Ocr.FIELDS /\
    (Dict.get "total" d = Some None <-> Dict.get "currency" d = Some None).
Proof.
  destruct (extract_fields_ok text) as (v & dt & t & c & p & -> & _ & _ & H).
  eexists. split; [reflexivity|]. split; [reflexivity|].
  cbn. split; intros [= E]; f_equal; tauto.
Qed.

(** X15: a vendor that [extract_fields] finds is not empty and has at most
    64 characters, and a [po_number] that it accepts has six digits or
    more, in a row or not. *)
Theorem extracted_values (text : string) :
  exists d,
    Ocr.extract_fields text = Ok d /\
    (forall v, Dict.get "vendor" d = Some (Some v) ->
               v <> "" /\ String.length v <= 64) /\
    (forall p, Dict.get "po_number" d = Some (Some p) ->
               6 <= count Char.is_digit p).
Proof.
  destruct (extract_fields_ok text) as (v & dt & t & c & p & -> & Hv & Hp & _).
  eexists. split; [reflexivity|]. cbn.
  split; intros x [= E]; auto.
Qed.

(* ================================================================== *)
(** * From two texts to the table *)

Lemma in_dict_set {V : Type} (d : Dict.t V) k v k' v' :
  In (k, v) (Dict.set k' v' d) -> k = k' \/ In (k, v) d.
Proof.
  induction d as [|[k0 v0] d IH]; simpl.
  - intros [[= <- <-]|[]]. now left.
  - destruct (String.eqb_spec k0 k'); simpl.
    + intros [[= <- <-]|H]; auto.
    + intros [H|H]; [auto|]. destruct (IH H); auto.
Qed.

(** The record that [main] makes of a text: its keys are canonical field
    names, and the text is its raw text. *)
Lemma document_record_ok text :
  exists rec,
    document_record text = Ok rec /\
    (forall f, names_key rec f -> In f FIELDS) /\
    raw_text rec = text.
Proof.
  unfold document_record. destruct (Str.nonempty text) eqn:N.
  - destruct (extract_fields_ok text) as (v & dt & t & c & p & -> & _).
    cbn [bind]. eexists. split; [reflexivity|]. split.
    + intros f (k & x & Hin & -> & Hne & Hraw). cbn in Hin.
      repeat (destruct Hin as [[= <- <-]|Hin]; [cbn in *; tauto|]).
      destruct Hin.
    + reflexivity.
  - cbn [bind]. eexists. split; [reflexivity|]. split.
    + intros f (k & x & [] & _).
    + apply nonempty_false in N. now subst.
Qed.

Lemma rows_in_fields inv pur inv_n po_n :
  (forall f, names_key inv f -> In f FIELDS) ->
  (forall f, names_key pur f -> In f FIELDS) ->
  let rows := flat_map (row_for inv pur inv_n po_n) (sorted (_candidate_fields inv pur)) in
  (forall r, In r rows -> In (field r) FIELDS) /\ List.length rows <= 5.
Proof.
  intros Hi Hp rows.
  assert (H : forall r, In r rows -> In (field r) FIELDS).
  { intros r Hr. apply in_rows in Hr. destruct Hr as (f & Hf & Hr).
    apply in_row_for in Hr. destruct Hr as [_ ->]. cbn [field].
    destruct Hf as [Hf|[Hf|Hf]]; auto. }
  split; [exact H|].
  rewrite <- (length_map field).
  change 5 with (List.length FIELDS).
  apply NoDup_incl_length.
  - unfold rows. rewrite fields_of_rows. apply NoDup_filter.
    apply ascending_nodup, ascending_candidates.
  - intros f Hf. apply in_map_iff in Hf. destruct Hf as (r & <- & Hr). auto.
Qed.

(** X16: with the refinement by OpenAI off, what [main] does with the two
    texts never raises: nothing is compared when both are empty, and
    otherwise the table has at most five rows, each for a canonical
    field. *)
Theorem verify_texts_rows (inv_text pur_text : string) :
  (inv_text = "" /\ pur_text = "" /\ verify_texts inv_text pur_text = Ok None) \/
  exists rows n,
    verify_texts inv_text pur_text = Ok (Some (rows, n)) /\
    (forall r, In r rows -> In (field r) FIELDS) /\
    List.length rows <= 5.
Proof.
  unfold verify_texts.
  destruct (Str.nonempty inv_text || Str.nonempty pur_text)%bool eqn:N.
  - right.
    destruct (document_record_ok inv_text) as (inv & -> & Hi & _).
    destruct (document_record_ok pur_text) as (pur & -> & Hp & _).
    cbn [bind].
    destruct (compare_records_ok inv pur) as (inv_n & po_n & _ & _ & _ & _ & ->).
    cbn [bind]. eexists _, _. split; [reflexivity|].
    now apply rows_in_fields.
  - left. apply orb_false_iff in N. destruct N as [N1 N2].
    apply nonempty_false in N1, N2. auto.
Qed.

(** X17: a text compared with itself gives no mismatch, but for a total
    too large for a floating-point number, and the same value on the two
    sides of every row. *)
Theorem verify_same_text (text : string) :
  text <> "" ->
  exists rows n,
    verify_texts text text = Ok (Some (rows, n)) /\
    forall r, In r rows ->
      po r = invoice r /\
      (status r = "match" \/ status r = "missing" \/
       (field r = "total" /\ amount (invoice r) = Some (S754_infinity false))).
Proof.
  intros Hne. apply nonempty_true in Hne. unfold verify_texts.
  rewrite Hne. cbn [orb].
  destruct (document_record_ok text) as (rec & -> & _). cbn [bind].
  destruct (compare_records_ok rec rec) as (n1 & n2 & H1 & _ & H2 & _ & ->).
  rewrite H1 in H2. injection H2 as <-.
  cbn [bind]. eexists _, _. split; [reflexivity|].
  intros r Hr. apply row_of_field in Hr. destruct Hr as (_ & Ei & Ep & Es).
  rewrite <- Ei in Ep. split; [assumption|].
  rewrite Es, Ep. destruct (field_status_self (field r) (invoice r)) as [H|[H|H]];
    tauto.
Qed.

Lemma verify_same_text_witness :
  exists rows n,
    verify_texts "Acme Ltd" "Acme Ltd" = Ok (Some (rows, n)) /\
    forall r, In r rows ->
      po r = invoice r /\
      (status r = "match" \/ status r = "missing" \/
       (field r = "total" /\ amount (invoice r) = Some (S754_infinity false))).
Proof. apply (verify_same_text "Acme Ltd"). discriminate. Defined.

(* ================================================================== *)
(** * Which mail is what *)

Lemma any_in_incl ks ks' text :
  incl ks ks' -> any_in ks text = true -> any_in ks' text = true.
Proof.
  unfold any_in. rewrite !existsb_exists. intros H (k & Hk & Hc). eauto.
Qed.

Lemma lower_app a b : Str.lower (a ++ b) = (Str.lower a ++ Str.lower b)%string.
Proof. induction a as [|x a IH]; simpl; [reflexivity|]. now rewrite IH. Qed.

Lemma lower_mail s b s' b' :
  Str.lower s = Str.lower s' -> Str.lower b = Str.lower b' ->
  Str.lower (s ++ " " ++ b) = Str.lower (s' ++ " " ++ b').
Proof. intros Hs Hb. rewrite !lower_app. now rewrite Hs, Hb. Qed.

Lemma any_file_same {payload : Type} patterns (atts atts' : list (string * payload)) :
  same_names atts atts' ->
  Imap.any_file patterns atts = Imap.any_file patterns atts'.
Proof.
  induction 1 as [|[f x] [f' x'] l l' Hf _ IH]; [reflexivity|].
  cbn [Imap.any_file]. cbn [fst] in Hf. now rewrite Hf, IH.
Qed.

(** X18: a mail that the Gmail integration takes for an invoice, or for a
    purchase order, is taken for one by the IMAP integration too, whatever
    its attachments. *)
Theorem imap_accepts_gmail_mail {payload : Type} (subject body : string)
  (attachments : list (string * payload)) :
  implb (Gmail._is_invoice_email subject body)
        (Imap._is_invoice_email subject body attachments) = true /\
  implb (Gmail._is_po_email subject body)
        (Imap._is_po_email subject body attachments) = true.
Proof.
  split.
  - unfold Gmail._is_invoice_email, Imap._is_invoice_email.
    destruct (any_in Gmail.INVOICE_KEYWORDS _) eqn:E; [|reflexivity].
    apply (any_in_incl _ Imap.INVOICE_KEYWORDS) in E; [now rewrite E|].
    intros k Hk. simpl in *. tauto.
  - unfold Gmail._is_po_email, Imap._is_po_email.
    destruct (any_in Gmail.PO_KEYWORDS _) eqn:E; [|reflexivity].
    apply (any_in_incl _ Imap.PO_KEYWORDS) in E; [now rewrite E|].
    intros k Hk. simpl in *. tauto.
Qed.

(** X19: the four classifiers do not look at the case of the letters: two
    mails whose subjects, bodies and attachment names differ in case only
    are classified alike. *)
Theorem mail_case_blind {payload : Type} (subject body subject' body' : string)
  (attachments attachments' : list (string * payload)) :
  Str.lower subject = Str.lower subject' ->
  Str.lower body = Str.lower body' ->
  same_names attachments attachments' ->
  Gmail._is_invoice_email subject body = Gmail._is_invoice_email subject' body' /\
  Gmail._is_po_email subject body = Gmail._is_po_email subject' body' /\
  Imap._is_invoice_email subject body attachments =
    Imap._is_invoice_email subject' body' attachments' /\
  Imap._is_po_email subject body attachments =
    Imap._is_po_email subject' body' attachments'.
Proof.
  intros Hs Hb Ha.
  unfold Gmail._is_invoice_email, Gmail._is_po_email,
    Imap._is_invoice_email, Imap._is_po_email.
  rewrite (lower_mail _ _ _ _ Hs Hb).
  rewrite (any_file_same Imap.INVOICE_FILE_PATTERNS _ _ Ha).
  rewrite (any_file_same Imap.PO_FILE_PATTERNS _ _ Ha).
  auto.
Qed.

Lemma mail_case_blind_witness :
  Gmail._is_invoice_email "INVOICE 12" "Payment Due" =
    Gmail._is_invoice_email "invoice 12" "payment due" /\
  Gmail._is_po_email "INVOICE 12" "Payment Due" =
    Gmail._is_po_email "invoice 12" "payment due" /\
  Imap._is_invoice_email "INVOICE 12" "Payment Due" [("Bill.PDF", tt)] =
    Imap._is_invoice_email "invoice 12" "payment due" [("bill.pdf", tt)] /\
  Imap._is_po_email "INVOICE 12" "Payment Due" [("Bill.PDF", tt)] =
    Imap._is_po_email "invoice 12" "payment due" [("bill.pdf", tt)].
Proof.
  apply (mail_case_blind "INVOICE 12" "Payment Due" "invoice 12" "payment due"
           [("Bill.PDF", tt)] [("bill.pdf", tt)]).
  - reflexivity.
  - reflexivity.
  - repeat constructor.
Defined.
